(** * Relay emulator: the controller logic of [relay_emulator.py]

    A shallow embedding of the state machine of [RelayEmulatorApp]
    (lock state, RTE priority override, per-billing-partner command
    dialect, status reporting) and the properties of its specification.

    Conventions of the embedding.
    - A Python [str] is a [string]; the wire protocol is ASCII, and
      [upper], [lower], [strip] and [int] are modelled on ASCII text
      (a character code above 127 is left alone by [upper] and [lower]
      and is neither a digit nor white space); statements about which
      texts [int] accepts are made for ASCII text ([is_ascii]).
    - [time.time() * 1000] is a Python float; a clock reading is a
      rational [Q], and [int(x)] on such a value truncates towards zero.
      Every call of [time.time()] in the source is a separate argument
      of the function that makes it, in the order of the calls.
      Products and differences of readings are exact in [Q] where the
      code rounds them to double precision, so the statements about the
      timers are made on the expression that the code compares,
      [t * 1000 - start], and use no law of arithmetic on it.
    - The serial port [self.ser] is modelled by a flag (a port object is
      attached or not); a successful [self.ser.write] appends the line to
      the output of the action.  Write errors, the event log, the debug
      log and the Tk label updates ([update_ui]) are not controller state
      and are left out.
    - The Tk variables ([billing_partner_var] ...) are fields of the same
      record as the attributes they are copied to by [handle_command]. *)

From Stdlib Require Import ZArith QArith Qround Qminmax Bool List Lia.
From Stdlib Require Import Ascii String DecimalString DecimalPos.
Import ListNotations.

Open Scope string_scope.
Open Scope Z_scope.

(** ** Python string primitives on ASCII text *)

Module PyStr.

Definition code (c : ascii) : Z := Z.of_nat (nat_of_ascii c).

(** [str.isspace] on one ASCII character: TAB, LF, VT, FF, CR,
    FS, GS, RS, US and the space. *)
Definition is_space (c : ascii) : bool :=
  ((9 <=? code c) && (code c <=? 13))
  || ((28 <=? code c) && (code c <=? 32)).

Definition is_upper (c : ascii) : bool := (65 <=? code c) && (code c <=? 90).
Definition is_lower (c : ascii) : bool := (97 <=? code c) && (code c <=? 122).
Definition is_digit (c : ascii) : bool := (48 <=? code c) && (code c <=? 57).

Definition upper_char (c : ascii) : ascii :=
  if is_lower c then ascii_of_nat (nat_of_ascii c - 32) else c.

Definition lower_char (c : ascii) : ascii :=
  if is_upper c then ascii_of_nat (nat_of_ascii c + 32) else c.

Fixpoint map_chars (f : ascii -> ascii) (s : string) : string :=
  match s with
  | EmptyString => EmptyString
  | String c r => String (f c) (map_chars f r)
  end.

(** [s.upper()] and [s.lower()] *)
Definition upper : string -> string := map_chars upper_char.
Definition lower : string -> string := map_chars lower_char.

Fixpoint lstrip (s : string) : string :=
  match s with
  | EmptyString => EmptyString
  | String c r => if is_space c then lstrip r else s
  end.

Fixpoint rstrip (s : string) : string :=
  match s with
  | EmptyString => EmptyString
  | String c r =>
      match rstrip r with
      | EmptyString => if is_space c then EmptyString else String c EmptyString
      | r' => String c r'
      end
  end.

(** [s.strip()] *)
Definition strip (s : string) : string := lstrip (rstrip s).

(** [' ' in s] *)
Fixpoint contains_space (s : string) : bool :=
  match s with
  | EmptyString => false
  | String c r => (c =? " ")%char || contains_space r
  end.

(** [s.split(' ', 1)] as the pair ([parts[0]], [parts[1]]); it is used
    only under [' ' in s], where the list has two elements (without a
    space the second component is empty and unused). *)
Fixpoint split_space_1 (s : string) : string * string :=
  match s with
  | EmptyString => (EmptyString, EmptyString)
  | String c r =>
      if (c =? " ")%char then (EmptyString, r)
      else let (h, t) := split_space_1 r in (String c h, t)
  end.

Definition digit_value (c : ascii) : Z := code c - 48.

(** [Py_ISSPACE], the white space that [int] skips around an ASCII
    literal: TAB, LF, VT, FF, CR and the space (not FS, GS, RS, US, which
    [str.strip] removes). *)
Definition is_int_space (c : ascii) : bool :=
  ((9 <=? code c) && (code c <=? 13)) || (code c =? 32).

Fixpoint int_lstrip (s : string) : string :=
  match s with
  | EmptyString => EmptyString
  | String c r => if is_int_space c then int_lstrip r else s
  end.

Fixpoint only_int_space (s : string) : bool :=
  match s with
  | EmptyString => true
  | String c r => is_int_space c && only_int_space r
  end.

(** [sys.int_info.default_max_str_digits]: a decimal literal with more
    digits makes [int] raise [ValueError]. *)
Definition int_max_str_digits : nat := 4300.

(** The digit part of a decimal literal accepted by [int]: digits, with
    single underscores allowed between two digits, then white space up to
    the end.  The result is the value and the number of digits read. *)
Fixpoint parse_digits (prev_digit : bool) (acc : Z) (count : nat) (s : string)
    : option (Z * nat) :=
  match s with
  | EmptyString => if prev_digit then Some (acc, count) else None
  | String c r =>
      if is_digit c then
        parse_digits true (10 * acc + digit_value c) (S count) r
      else if (c =? "_")%char then
        (if prev_digit then parse_digits false acc count r else None)
      else if prev_digit && only_int_space s then Some (acc, count)
      else None
  end.

(** The check of the digit limit on what [parse_digits] has read. *)
Definition within_digit_limit (r : option (Z * nat)) : option Z :=
  match r with
  | Some (v, k) => if (k <=? int_max_str_digits)%nat then Some v else None
  | None => None
  end.

(** [int(s)] in base 10 on ASCII text: [Some n] for the value, [None] for
    [ValueError].  White space before and after the literal is skipped,
    one sign directly before the digits is allowed, and a literal of more
    than [int_max_str_digits] digits is refused. *)
Definition py_int (s : string) : option Z :=
  match int_lstrip s with
  | EmptyString => None
  | String c r =>
      if (c =? "-")%char then
        option_map Z.opp (within_digit_limit (parse_digits false 0 0 r))
      else if (c =? "+")%char then
        within_digit_limit (parse_digits false 0 0 r)
      else within_digit_limit (parse_digits false 0 0 (String c r))
  end.

(** All character codes are below 128. *)
Fixpoint is_ascii (s : string) : bool :=
  match s with
  | EmptyString => true
  | String c r => (code c <? 128) && is_ascii r
  end.

(** [str(n)] for an integer *)
Definition str (n : Z) : string := NilZero.string_of_int (Z.to_int n).

(** [int(x)] for a float [x]: truncation towards zero *)
Definition int_of_float (x : Q) : Z := Z.quot (Qnum x) (Zpos (Qden x)).

End PyStr.

Import PyStr.

(** ** The application object

    The attributes of [RelayEmulatorApp] that the controller logic reads
    or writes, with the names of the source.  [lock_state] is 0 (locked),
    1 (temporarily unlocked) or 2 (permanently unlocked); times are in
    milliseconds.  The last five fields are the Tk variables of the
    configuration panel and of the manual-unlock entry. *)

Record App : Type := mkApp {
  running : bool;
  ser : bool;
  lock_state : Z;
  rte_count : Z;
  door_state : string;
  unlock_start_time : Q;
  unlock_duration : Z;
  rte_override_active : bool;
  rte_override_start_time : Q;
  rte_override_duration : Z;
  last_rte_state : bool;
  billing_partner : string;
  aux_type : string;
  aux_normally_open : bool;
  rte_count_enabled : bool;
  billing_partner_var : string;
  aux_type_var : string;
  aux_normally_open_var : bool;
  rte_count_enabled_var : bool;
  unlock_duration_var : string
}.

(** Attribute assignment [self.f = v], one function per assigned attribute. *)

Definition set_running (v : bool) (s : App) : App :=
  mkApp v (ser s) (lock_state s) (rte_count s) (door_state s)
    (unlock_start_time s) (unlock_duration s) (rte_override_active s)
    (rte_override_start_time s) (rte_override_duration s) (last_rte_state s)
    (billing_partner s) (aux_type s) (aux_normally_open s) (rte_count_enabled
    s) (billing_partner_var s) (aux_type_var s) (aux_normally_open_var s)
    (rte_count_enabled_var s) (unlock_duration_var s).

Definition set_ser (v : bool) (s : App) : App :=
  mkApp (running s) v (lock_state s) (rte_count s) (door_state s)
    (unlock_start_time s) (unlock_duration s) (rte_override_active s)
    (rte_override_start_time s) (rte_override_duration s) (last_rte_state s)
    (billing_partner s) (aux_type s) (aux_normally_open s) (rte_count_enabled
    s) (billing_partner_var s) (aux_type_var s) (aux_normally_open_var s)
    (rte_count_enabled_var s) (unlock_duration_var s).

Definition set_lock_state (v : Z) (s : App) : App :=
  mkApp (running s) (ser s) v (rte_count s) (door_state s)
    (unlock_start_time s) (unlock_duration s) (rte_override_active s)
    (rte_override_start_time s) (rte_override_duration s) (last_rte_state s)
    (billing_partner s) (aux_type s) (aux_normally_open s) (rte_count_enabled
    s) (billing_partner_var s) (aux_type_var s) (aux_normally_open_var s)
    (rte_count_enabled_var s) (unlock_duration_var s).

Definition set_rte_count (v : Z) (s : App) : App :=
  mkApp (running s) (ser s) (lock_state s) v (door_state s)
    (unlock_start_time s) (unlock_duration s) (rte_override_active s)
    (rte_override_start_time s) (rte_override_duration s) (last_rte_state s)
    (billing_partner s) (aux_type s) (aux_normally_open s) (rte_count_enabled
    s) (billing_partner_var s) (aux_type_var s) (aux_normally_open_var s)
    (rte_count_enabled_var s) (unlock_duration_var s).

Definition set_door_state (v : string) (s : App) : App :=
  mkApp (running s) (ser s) (lock_state s) (rte_count s) v
    (unlock_start_time s) (unlock_duration s) (rte_override_active s)
    (rte_override_start_time s) (rte_override_duration s) (last_rte_state s)
    (billing_partner s) (aux_type s) (aux_normally_open s) (rte_count_enabled
    s) (billing_partner_var s) (aux_type_var s) (aux_normally_open_var s)
    (rte_count_enabled_var s) (unlock_duration_var s).

Definition set_unlock_start_time (v : Q) (s : App) : App :=
  mkApp (running s) (ser s) (lock_state s) (rte_count s) (door_state s) v
    (unlock_duration s) (rte_override_active s) (rte_override_start_time s)
    (rte_override_duration s) (last_rte_state s) (billing_partner s) (aux_type
    s) (aux_normally_open s) (rte_count_enabled s) (billing_partner_var s)
    (aux_type_var s) (aux_normally_open_var s) (rte_count_enabled_var s)
    (unlock_duration_var s).

Definition set_unlock_duration (v : Z) (s : App) : App :=
  mkApp (running s) (ser s) (lock_state s) (rte_count s) (door_state s)
    (unlock_start_time s) v (rte_override_active s) (rte_override_start_time
    s) (rte_override_duration s) (last_rte_state s) (billing_partner s)
    (aux_type s) (aux_normally_open s) (rte_count_enabled s)
    (billing_partner_var s) (aux_type_var s) (aux_normally_open_var s)
    (rte_count_enabled_var s) (unlock_duration_var s).

Definition set_rte_override_active (v : bool) (s : App) : App :=
  mkApp (running s) (ser s) (lock_state s) (rte_count s) (door_state s)
    (unlock_start_time s) (unlock_duration s) v (rte_override_start_time s)
    (rte_override_duration s) (last_rte_state s) (billing_partner s) (aux_type
    s) (aux_normally_open s) (rte_count_enabled s) (billing_partner_var s)
    (aux_type_var s) (aux_normally_open_var s) (rte_count_enabled_var s)
    (unlock_duration_var s).

Definition set_rte_override_start_time (v : Q) (s : App) : App :=
  mkApp (running s) (ser s) (lock_state s) (rte_count s) (door_state s)
    (unlock_start_time s) (unlock_duration s) (rte_override_active s) v
    (rte_override_duration s) (last_rte_state s) (billing_partner s) (aux_type
    s) (aux_normally_open s) (rte_count_enabled s) (billing_partner_var s)
    (aux_type_var s) (aux_normally_open_var s) (rte_count_enabled_var s)
    (unlock_duration_var s).

Definition set_rte_override_duration (v : Z) (s : App) : App :=
  mkApp (running s) (ser s) (lock_state s) (rte_count s) (door_state s)
    (unlock_start_time s) (unlock_duration s) (rte_override_active s)
    (rte_override_start_time s) v (last_rte_state s) (billing_partner s)
    (aux_type s) (aux_normally_open s) (rte_count_enabled s)
    (billing_partner_var s) (aux_type_var s) (aux_normally_open_var s)
    (rte_count_enabled_var s) (unlock_duration_var s).

Definition set_billing_partner (v : string) (s : App) : App :=
  mkApp (running s) (ser s) (lock_state s) (rte_count s) (door_state s)
    (unlock_start_time s) (unlock_duration s) (rte_override_active s)
    (rte_override_start_time s) (rte_override_duration s) (last_rte_state s) v
    (aux_type s) (aux_normally_open s) (rte_count_enabled s)
    (billing_partner_var s) (aux_type_var s) (aux_normally_open_var s)
    (rte_count_enabled_var s) (unlock_duration_var s).

Definition set_aux_type (v : string) (s : App) : App :=
  mkApp (running s) (ser s) (lock_state s) (rte_count s) (door_state s)
    (unlock_start_time s) (unlock_duration s) (rte_override_active s)
    (rte_override_start_time s) (rte_override_duration s) (last_rte_state s)
    (billing_partner s) v (aux_normally_open s) (rte_count_enabled s)
    (billing_partner_var s) (aux_type_var s) (aux_normally_open_var s)
    (rte_count_enabled_var s) (unlock_duration_var s).

Definition set_aux_normally_open (v : bool) (s : App) : App :=
  mkApp (running s) (ser s) (lock_state s) (rte_count s) (door_state s)
    (unlock_start_time s) (unlock_duration s) (rte_override_active s)
    (rte_override_start_time s) (rte_override_duration s) (last_rte_state s)
    (billing_partner s) (aux_type s) v (rte_count_enabled s)
    (billing_partner_var s) (aux_type_var s) (aux_normally_open_var s)
    (rte_count_enabled_var s) (unlock_duration_var s).

Definition set_rte_count_enabled (v : bool) (s : App) : App :=
  mkApp (running s) (ser s) (lock_state s) (rte_count s) (door_state s)
    (unlock_start_time s) (unlock_duration s) (rte_override_active s)
    (rte_override_start_time s) (rte_override_duration s) (last_rte_state s)
    (billing_partner s) (aux_type s) (aux_normally_open s) v
    (billing_partner_var s) (aux_type_var s) (aux_normally_open_var s)
    (rte_count_enabled_var s) (unlock_duration_var s).

Definition set_billing_partner_var (v : string) (s : App) : App :=
  mkApp (running s) (ser s) (lock_state s) (rte_count s) (door_state s)
    (unlock_start_time s) (unlock_duration s) (rte_override_active s)
    (rte_override_start_time s) (rte_override_duration s) (last_rte_state s)
    (billing_partner s) (aux_type s) (aux_normally_open s) (rte_count_enabled
    s) v (aux_type_var s) (aux_normally_open_var s) (rte_count_enabled_var s)
    (unlock_duration_var s).

Definition set_aux_type_var (v : string) (s : App) : App :=
  mkApp (running s) (ser s) (lock_state s) (rte_count s) (door_state s)
    (unlock_start_time s) (unlock_duration s) (rte_override_active s)
    (rte_override_start_time s) (rte_override_duration s) (last_rte_state s)
    (billing_partner s) (aux_type s) (aux_normally_open s) (rte_count_enabled
    s) (billing_partner_var s) v (aux_normally_open_var s)
    (rte_count_enabled_var s) (unlock_duration_var s).

Definition set_aux_normally_open_var (v : bool) (s : App) : App :=
  mkApp (running s) (ser s) (lock_state s) (rte_count s) (door_state s)
    (unlock_start_time s) (unlock_duration s) (rte_override_active s)
    (rte_override_start_time s) (rte_override_duration s) (last_rte_state s)
    (billing_partner s) (aux_type s) (aux_normally_open s) (rte_count_enabled
    s) (billing_partner_var s) (aux_type_var s) v (rte_count_enabled_var s)
    (unlock_duration_var s).

Definition set_rte_count_enabled_var (v : bool) (s : App) : App :=
  mkApp (running s) (ser s) (lock_state s) (rte_count s) (door_state s)
    (unlock_start_time s) (unlock_duration s) (rte_override_active s)
    (rte_override_start_time s) (rte_override_duration s) (last_rte_state s)
    (billing_partner s) (aux_type s) (aux_normally_open s) (rte_count_enabled
    s) (billing_partner_var s) (aux_type_var s) (aux_normally_open_var s) v
    (unlock_duration_var s).

Definition set_unlock_duration_var (v : string) (s : App) : App :=
  mkApp (running s) (ser s) (lock_state s) (rte_count s) (door_state s)
    (unlock_start_time s) (unlock_duration s) (rte_override_active s)
    (rte_override_start_time s) (rte_override_duration s) (last_rte_state s)
    (billing_partner s) (aux_type s) (aux_normally_open s) (rte_count_enabled
    s) (billing_partner_var s) (aux_type_var s) (aux_normally_open_var s)
    (rte_count_enabled_var s) v.

(** ** Actions

    A method of the application is a function from the object to the
    updated object and the data written to the serial port, in order. *)

Definition Act : Type := App -> App * list string.

Definition skip : Act := fun s => (s, []).

Definition seq (a b : Act) : Act :=
  fun s => let (s1, o1) := a s in let (s2, o2) := b s1 in (s2, (o1 ++ o2)%list).

Notation "a ;; b" := (seq a b) (at level 61, right associativity).

(** [self.f = v] *)
Definition assign (f : App -> App) : Act := fun s => (f s, []).

(** [self.ser.write(data.encode())] *)
Definition ser_write (data : string) : Act := fun s => (s, [data]).

(** [if c: a else: b], the condition read from the object *)
Definition cond (c : App -> bool) (a b : Act) : Act :=
  fun s => if c s then a s else b s.

Definition LF : string := String (ascii_of_nat 10) EmptyString.

Definition Qlt_bool (x y : Q) : bool := negb (Qle_bool y x).

(** [self.billing_partner_var.get().upper()] *)
Definition dialect (s : App) : string := upper (billing_partner_var s).

(** [self.billing_partner_var.get().upper() == "DFACS"] *)
Definition dfacs_selected (s : App) : bool := (dialect s =? "DFACS")%string.

(** [self.aux_type_var.get().upper() in ["DPS", "BOND"]] *)
Definition aux_is_door (s : App) : bool :=
  (upper (aux_type_var s) =? "DPS")%string || (upper (aux_type_var s) =? "BOND")%string.

(** [self.aux_type_var.get().upper() in ["RTE", "REX"]] *)
Definition aux_is_rte (s : App) : bool :=
  (upper (aux_type_var s) =? "RTE")%string || (upper (aux_type_var s) =? "REX")%string.

(** ** Status reporting ([send_status]) *)

(** The local [time_remaining] of [send_status]; [t] is the value of
    [time.time()] read there. *)
Definition time_remaining (t : Q) (s : App) : Z :=
  if rte_override_active s then
    let current_time := (t * 1000)%Q in
    let elapsed := (current_time - rte_override_start_time s)%Q in
    if Qlt_bool elapsed (inject_Z (rte_override_duration s))
    then int_of_float ((inject_Z (rte_override_duration s) - elapsed) / 1000)%Q
    else 0
  else if lock_state s =? 1 then
    let current_time := (t * 1000)%Q in
    let elapsed := (current_time - unlock_start_time s)%Q in
    if Qlt_bool elapsed (inject_Z (unlock_duration s))
    then int_of_float ((inject_Z (unlock_duration s) - elapsed) / 1000)%Q
    else 0
  else 0.

(** The record [STATUS,<lock>,<rte_count>,<door>,<time_remaining>,<override>]
    with a given value of the time field. *)
Definition status_record (lock count : Z) (door : string) (remaining : Z)
    (override : bool) : string :=
  "STATUS," ++ str lock ++ "," ++ str count ++ "," ++ door ++ ","
  ++ str remaining ++ "," ++ (if override then "RTE_ACTIVE" else "NORMAL").

(** The string [status] built by [send_status]. *)
Definition status_text (t : Q) (s : App) : string :=
  status_record (lock_state s) (rte_count s)
    (if aux_is_door s then door_state s else "NA")
    (time_remaining t s) (rte_override_active s).

Definition send_status (t : Q) : Act :=
  fun s =>
    if negb (ser s) then (s, [])
    else if negb (dfacs_selected s) then (s, [])
    else ser_write (status_text t s ++ LF) s.

(** ** Lock control *)

(** [unlock_door(duration)]: [t] is the clock reading stored as the start
    of the window, [t'] the one of the status that follows. *)
Definition unlock_door (t t' : Q) (duration : Z) : Act :=
  cond rte_override_active
    (cond (fun s => dfacs_selected s && ser s)
       (ser_write ("REJECTED,RTE_OVERRIDE_ACTIVE" ++ LF))
       skip)
    (assign (set_lock_state 1) ;;
     assign (set_unlock_duration (duration * 1000)) ;;
     assign (set_unlock_start_time (t * 1000)%Q) ;;
     send_status t').

(** ** RTE priority override *)

Definition activate_rte_override (t t' : Q) : Act :=
  assign (set_rte_override_active true) ;;
  assign (set_rte_override_start_time (t * 1000)%Q) ;;
  assign (set_rte_override_duration 5000) ;;
  assign (set_lock_state 1) ;;
  assign (fun s => set_unlock_start_time (rte_override_start_time s) s) ;;
  assign (fun s => set_unlock_duration (rte_override_duration s) s) ;;
  cond rte_count_enabled
    (assign (fun s => set_rte_count (rte_count s + 1) s))
    skip ;;
  send_status t' ;;
  cond (fun s => dfacs_selected s && ser s)
    (fun s => ser_write ("RTE_OVERRIDE,ACTIVATED,"
                         ++ str (rte_override_duration s / 1000) ++ LF) s)
    skip.

Definition deactivate_rte_override (t' : Q) : Act :=
  assign (set_rte_override_active false) ;;
  assign (set_lock_state 0) ;;
  assign (set_unlock_duration 5000) ;;
  send_status t' ;;
  cond (fun s => dfacs_selected s && ser s)
    (ser_write ("RTE_OVERRIDE,DEACTIVATED" ++ LF))
    skip.

Definition handle_rte_override_timer (t t' : Q) : Act :=
  cond rte_override_active
    (fun s =>
       let current_time := (t * 1000)%Q in
       let elapsed := (current_time - rte_override_start_time s)%Q in
       if Qle_bool (inject_Z (rte_override_duration s)) elapsed
       then deactivate_rte_override t' s
       else skip s)
    skip.

Definition handle_unlock_timer (t t' : Q) : Act :=
  cond (fun s => lock_state s =? 1)
    (fun s =>
       let current_time := (t * 1000)%Q in
       let elapsed := (current_time - unlock_start_time s)%Q in
       if Qle_bool (inject_Z (unlock_duration s)) elapsed
       then (assign (set_lock_state 0) ;;
             assign (set_unlock_duration 5000) ;;
             send_status t') s
       else skip s)
    skip.

(** ** Command handling *)

(** The first lines of [process_normal_commands]: the command word and
    the duration in seconds, 5 unless a second part parses as an integer. *)
Definition parse_duration (cmd : string) : string * Z :=
  if contains_space cmd then
    let (p0, p1) := split_space_1 cmd in
    (p0, match py_int p1 with
         | Some d => Z.max 1 (Z.min 3600 d)
         | None => 5
         end)
  else (cmd, 5).

(** [t] is the first clock reading made while the command is processed,
    [t'] the second one (only a timed unlock makes two: the start of the
    window, then the status). *)
Definition process_normal_commands (t t' : Q) (cmd0 : string) : Act :=
  let (cmd, duration) := parse_duration cmd0 in
  fun s =>
    if (billing_partner s =? "ABC")%string then
      if (cmd =? "0")%string && (lock_state s =? 0) then
        unlock_door t t' duration s
      else if (lower cmd =? "a")%string && (lock_state s =? 0) then
        (assign (set_lock_state 2) ;; send_status t) s
      else if (lower cmd =? "z")%string then
        (assign (set_lock_state 0) ;; send_status t) s
      else skip s
    else if (billing_partner s =? "PEAK")%string then
      if ((lower cmd =? "open sesame!")%string || (cmd =? "0")%string)
         && (lock_state s =? 0) then
        unlock_door t t' duration s
      else if (lower cmd =? "a")%string && (lock_state s =? 0) then
        (assign (set_lock_state 2) ;; send_status t) s
      else if (lower cmd =? "z")%string then
        (assign (set_lock_state 0) ;; send_status t) s
      else skip s
    else if (billing_partner s =? "DFACS")%string then
      if ((lower cmd =? "open sesame!")%string || (cmd =? "0")%string)
         && (lock_state s =? 0) then
        unlock_door t t' duration s
      else if (lower cmd =? "a")%string && (lock_state s =? 0) then
        (assign (set_lock_state 2) ;; send_status t) s
      else if (lower cmd =? "z")%string then
        (assign (set_lock_state 0) ;; send_status t) s
      else if (lower cmd =? "ack")%string then
        (cond rte_count_enabled (assign (set_rte_count 0)) skip ;;
         send_status t) s
      else if (lower cmd =? "status")%string then
        send_status t s
      else skip s
    else skip s.

(** The configuration attributes are copied from the Tk variables at the
    start of every command. *)
Definition refresh_config : Act :=
  assign (fun s => set_billing_partner (dialect s) s) ;;
  assign (fun s => set_aux_type (upper (aux_type_var s)) s) ;;
  assign (fun s => set_aux_normally_open (aux_normally_open_var s) s) ;;
  assign (fun s => set_rte_count_enabled (rte_count_enabled_var s) s).

Definition handle_command (t t' : Q) (command : string) : Act :=
  refresh_config ;;
  let cmd := strip command in
  cond rte_override_active
    (if (upper cmd =? "STATUS")%string then send_status t
     else
       cond (fun s => (billing_partner s =? "DFACS")%string)
         (cond ser (ser_write ("REJECTED,RTE_OVERRIDE_ACTIVE" ++ LF)) skip)
         skip)
    (process_normal_commands t t' cmd).

(** ** The buttons of the control panel *)

Definition trigger_rte (t t' : Q) : Act :=
  cond aux_is_rte
    (cond (fun s => lock_state s =? 0) (activate_rte_override t t') skip)
    skip.

Definition toggle_door_state (t : Q) : Act :=
  cond aux_is_door
    (cond (fun s => (door_state s =? "CLOSED")%string)
       (assign (set_door_state "OPEN"))
       (assign (set_door_state "CLOSED")) ;;
     send_status t)
    skip.

Definition toggle_lock_state (t : Q) : Act :=
  cond (fun s => lock_state s =? 0)
    (assign (set_lock_state 2))
    (assign (set_lock_state 0)) ;;
  send_status t.

Definition manual_unlock (t t' : Q) : Act :=
  fun s =>
    match py_int (unlock_duration_var s) with
    | Some d => unlock_door t t' (Z.max 1 (Z.min 3600 d)) s
    | None => skip s
    end.

(** ** The serial connection and the emulation loop *)

(** [connect_serial]; [opened] tells whether [serial.Serial(...)] returned
    a port (a missing port name or a failure to open leaves the object as
    it is). *)
Definition connect_serial (opened : bool) : Act :=
  if opened then assign (set_ser true) ;; assign (set_running true) else skip.

Definition disconnect_serial : Act :=
  assign (set_running false) ;; assign (set_ser false).

(** The clock readings of one iteration of [emulation_loop], in the
    order of the calls: the command, the override timer and its status,
    the unlock timer and its status, the heartbeat and its status. *)
Record LoopClock : Type := mkLoopClock {
  c_cmd : Q;   c_cmd' : Q;
  c_ovr : Q;   c_ovr' : Q;
  c_unl : Q;   c_unl' : Q;
  c_beat : Q;  c_beat' : Q
}.

(** The body of the [while self.running] loop.  [incoming] is the decoded
    line waiting on the port, if any; the local [last_status_time] is
    passed in and returned. *)
Definition emulation_iteration (incoming : option string) (k : LoopClock)
    (last_status_time : Q) : App -> (App * list string) * Q :=
  fun s =>
    let (s1, o1) :=
      match incoming with
      | Some raw =>
          if ser s then
            let line := strip raw in
            if (line =? "")%string then (s, [])
            else handle_command (c_cmd k) (c_cmd' k) line s
          else (s, [])
      | None => (s, [])
      end in
    let (s2, o2) := handle_rte_override_timer (c_ovr k) (c_ovr' k) s1 in
    let (s3, o3) :=
      if negb (rte_override_active s2)
      then handle_unlock_timer (c_unl k) (c_unl' k) s2
      else (s2, []) in
    let current_time := c_beat k in
    if dfacs_selected s3 && Qle_bool 1 (current_time - last_status_time) then
      let (s4, o4) := send_status (c_beat' k) s3 in
      ((s4, (o1 ++ o2 ++ o3 ++ o4)%list), current_time)
    else ((s3, (o1 ++ o2 ++ o3)%list), last_status_time).

(** ** Construction *)

(** What [load_settings] finds in the settings file, if anything. *)
Record Settings : Type := mkSettings {
  st_billing_partner : option string;
  st_aux_type : option string;
  st_aux_normally_open : option bool;
  st_rte_count_enabled : option bool
}.

Definition from_setting {A : Type} (o : option A) (default : A) : A :=
  match o with Some v => v | None => default end.

(** [__init__]: the attribute defaults, the Tk variables at their initial
    values unless the settings file overrides them. *)
Definition init (st : Settings) : App :=
  {| running := false;
     ser := false;
     lock_state := 0;
     rte_count := 0;
     door_state := "CLOSED";
     unlock_start_time := 0;
     unlock_duration := 5000;
     rte_override_active := false;
     rte_override_start_time := 0;
     rte_override_duration := 0;
     last_rte_state := false;
     billing_partner := "DFACS";
     aux_type := "RTE";
     aux_normally_open := true;
     rte_count_enabled := true;
     billing_partner_var := from_setting (st_billing_partner st) "DFACS";
     aux_type_var := from_setting (st_aux_type st) "RTE";
     aux_normally_open_var := from_setting (st_aux_normally_open st) true;
     rte_count_enabled_var := from_setting (st_rte_count_enabled st) true;
     unlock_duration_var := "5" |}.

Definition no_settings : Settings := mkSettings None None None None.

(** ** Operations on a live controller *)

(** Everything that acts on the object after construction: the buttons
    and entries of the window, and the iterations of the emulation loop
    while it runs. *)
Inductive Event : Type :=
| EvConnect (opened : bool)
| EvDisconnect
| EvIteration (incoming : option string) (k : LoopClock) (last_status_time : Q)
| EvTriggerRte (t t' : Q)
| EvToggleDoor (t : Q)
| EvToggleLock (t : Q)
| EvManualUnlock (t t' : Q)
| EvSetBillingPartner (v : string)
| EvSetAuxType (v : string)
| EvSetAuxNormallyOpen (v : bool)
| EvSetRteCountEnabled (v : bool)
| EvSetUnlockDuration (v : string).

Definition step (e : Event) : Act :=
  match e with
  | EvConnect opened => connect_serial opened
  | EvDisconnect => disconnect_serial
  | EvIteration incoming k last =>
      fun s => if running s then fst (emulation_iteration incoming k last s)
               else skip s
  | EvTriggerRte t t' => trigger_rte t t'
  | EvToggleDoor t => toggle_door_state t
  | EvToggleLock t => toggle_lock_state t
  | EvManualUnlock t t' => manual_unlock t t'
  | EvSetBillingPartner v => assign (set_billing_partner_var v)
  | EvSetAuxType v => assign (set_aux_type_var v)
  | EvSetAuxNormallyOpen v => assign (set_aux_normally_open_var v)
  | EvSetRteCountEnabled v => assign (set_rte_count_enabled_var v)
  | EvSetUnlockDuration v => assign (set_unlock_duration_var v)
  end.

(** The object after a list of events, oldest first. *)
Fixpoint run (es : list Event) (s : App) : App :=
  match es with
  | [] => s
  | e :: es' => run es' (fst (step e s))
  end.

Inductive reachable : App -> Prop :=
| reach_init : forall st, reachable (init st)
| reach_step : forall e s, reachable s -> reachable (fst (step e s)).

(** The state the controller owns: lock state, RTE counter, door state,
    unlock timer and override state. *)
Record Owned : Type := mkOwned {
  o_lock_state : Z;
  o_rte_count : Z;
  o_door_state : string;
  o_unlock_start_time : Q;
  o_unlock_duration : Z;
  o_override_active : bool;
  o_override_start_time : Q;
  o_override_duration : Z
}.

Definition owned (s : App) : Owned :=
  mkOwned (lock_state s) (rte_count s) (door_state s)
    (unlock_start_time s) (unlock_duration s)
    (rte_override_active s) (rte_override_start_time s)
    (rte_override_duration s).

(** ** Notions used in the statements *)

(** The rejection line written during an override. *)
Definition REJECTED : string := "REJECTED,RTE_OVERRIDE_ACTIVE" ++ LF.

(** The three dialects of the billing-partner selector. *)
Definition known_dialect (s : App) : Prop :=
  dialect s = "ABC" \/ dialect s = "PEAK" \/ dialect s = "DFACS".

(** The command word of a line, as [process_normal_commands] sees it. *)
Definition command_word (line : string) : string :=
  fst (parse_duration (strip line)).

(** A loop clock with every reading at the same instant. *)
Definition at_instant (t : Q) : LoopClock := mkLoopClock t t t t t t t t.

(** The decimal literals of the language reference: a digit followed by
    digits, each optionally preceded by one underscore.  [int_body s v k]
    says that [s] is such a literal, of value [v], with [k] digits. *)
Inductive int_body : string -> Z -> nat -> Prop :=
| body_digit : forall c,
    is_digit c = true ->
    int_body (String c "") (digit_value c) 1
| body_more : forall s v k c,
    int_body s v k -> is_digit c = true ->
    int_body (s ++ String c "") (10 * v + digit_value c) (S k)
| body_underscore : forall s v k c,
    int_body s v k -> is_digit c = true ->
    int_body (s ++ "_" ++ String c "") (10 * v + digit_value c) (S k).

(** The texts that [int] accepts, and their values: a decimal literal of
    at most [int_max_str_digits] digits, with one optional sign directly
    before it and white space around it. *)
Definition int_literal (tok : string) (n : Z) : Prop :=
  exists pre body post v k,
    only_int_space pre = true
    /\ only_int_space post = true
    /\ int_body body v k
    /\ (k <= int_max_str_digits)%nat
    /\ ((tok = pre ++ body ++ post /\ n = v)
        \/ (tok = pre ++ "+" ++ body ++ post /\ n = v)
        \/ (tok = pre ++ "-" ++ body ++ post /\ n = - v)).

(** What [parse_digits] has read so far, in the state it is in: a
    literal, or nothing, or a literal and one underscore. *)
Definition read_so_far (p : string) (b : bool) (acc : Z) (cnt : nat) : Prop :=
  if b then int_body p acc cnt
  else (p = "" /\ acc = 0 /\ cnt = 0%nat)
       \/ (exists q, p = q ++ "_" /\ int_body q acc cnt).

(** A string of [k] nines. *)
Fixpoint nines (k : nat) : string :=
  match k with
  | O => EmptyString
  | S k' => String "9" (nines k')
  end.

(** The number of decimal digits of an integer. *)
Definition decimal_digits (n : Z) : nat := String.length (str (Z.abs n)).

(** No character of the string is white space. *)
Fixpoint no_space (s : string) : bool :=
  match s with
  | EmptyString => true
  | String c r => negb (is_space c) && no_space r
  end.

(** The value of a string of decimal digits read from the left. *)
Fixpoint horner (d : Decimal.uint) (acc : Z) : Z :=
  match d with
  | Decimal.Nil => acc
  | Decimal.D0 l => horner l (10 * acc)
  | Decimal.D1 l => horner l (10 * acc + 1)
  | Decimal.D2 l => horner l (10 * acc + 2)
  | Decimal.D3 l => horner l (10 * acc + 3)
  | Decimal.D4 l => horner l (10 * acc + 4)
  | Decimal.D5 l => horner l (10 * acc + 5)
  | Decimal.D6 l => horner l (10 * acc + 6)
  | Decimal.D7 l => horner l (10 * acc + 7)
  | Decimal.D8 l => horner l (10 * acc + 8)
  | Decimal.D9 l => horner l (10 * acc + 9)
  end.



(** The owned state as [__init__] leaves it. *)
Definition construction_defaults : Owned :=
  mkOwned 0 0 "CLOSED" 0%Q 5000 false 0%Q 0.

(** Actions that leave the door state alone. *)
Definition keeps_door (a : Act) : Prop :=
  forall s, door_state (fst (a s)) = door_state s.

(** A reachable state with a counted override and the door open. *)
Definition door_open_after_rte : App :=
  run [EvTriggerRte 0 0; EvSetAuxType "DPS"; EvToggleDoor 1] (init no_settings).

(** ** The timer label ([update_display]) *)

(** The text that [update_display] puts on the unlock-timer label; [t] is
    the value of [time.time()] read there. *)
Definition unlock_timer_text (t : Q) (s : App) : string :=
  if rte_override_active s then
    let current_time := (t * 1000)%Q in
    let elapsed := (current_time - rte_override_start_time s)%Q in
    if Qlt_bool elapsed (inject_Z (rte_override_duration s)) then
      let remaining :=
        int_of_float ((inject_Z (rte_override_duration s) - elapsed) / 1000)%Q in
      str remaining ++ "s (RTE)"
    else "0s"
  else if lock_state s =? 1 then
    let current_time := (t * 1000)%Q in
    let elapsed := (current_time - unlock_start_time s)%Q in
    if Qlt_bool elapsed (inject_Z (unlock_duration s)) then
      let remaining :=
        int_of_float ((inject_Z (unlock_duration s) - elapsed) / 1000)%Q in
      str remaining ++ "s"
    else "0s"
  else "0s".

(** ** The first emulator ([main.py]) *)

Module Legacy.

(** The relay of [main.py]: [state] is 0 (locked), 1 (unlocking) or 2
    (unlocked); [timers] counts the [threading.Timer] objects that have
    been started and have not fired yet.  The handling of a line and the
    firing of a timer are taken as steps that do not interleave. *)
Record Relay : Type := mkRelay {
  state : Z;
  timers : nat
}.

(** [__init__] *)
Definition init : Relay := mkRelay 0 0.

(** One line read by [listen_to_serial]. *)
Definition receive (raw : string) (r : Relay) : Relay :=
  let command := strip raw in
  if ((command =? "Open Sesame!")%string || (command =? "0")%string)
     && (state r =? 0) then
    mkRelay 1 (S (timers r))
  else if (command =? "a")%string && (state r =? 0) then
    mkRelay 2 (timers r)
  else if (command =? "z")%string then
    mkRelay 0 (timers r)
  else r.

(** [lock_relay], the callback of the timers *)
Definition lock_relay (r : Relay) : Relay :=
  if state r =? 1 then mkRelay 0 (timers r) else r.

(** What happens to the relay: a line arrives, or a started timer fires. *)
Inductive Event : Type :=
| Received (raw : string)
| TimerFires.

Definition step (e : Event) (r : Relay) : Relay :=
  match e with
  | Received raw => receive raw r
  | TimerFires =>
      match timers r with
      | O => r
      | S n => lock_relay (mkRelay (state r) n)
      end
  end.

Fixpoint run (es : list Event) (r : Relay) : Relay :=
  match es with
  | [] => r
  | e :: es' => run es' (step e r)
  end.

End Legacy.

(** ** Notions used in the further properties *)

(** The part of a loop iteration that reads the port and handles the
    line, as an action of its own. *)
Definition intake (incoming : option string) (k : LoopClock) : Act :=
  fun s =>
    match incoming with
    | Some raw =>
        if ser s then
          let line := strip raw in
          if (line =? "")%string then (s, [])
          else handle_command (c_cmd k) (c_cmd' k) line s
        else (s, [])
    | None => (s, [])
    end.

(** An action keeps a property of the object. *)
Definition keeps (P : App -> Prop) (a : Act) : Prop :=
  forall s, P s -> P (fst (a s)).

(** An action leaves the port and the billing-partner selector alone and
    writes nothing unless the port is attached and DFACS is selected. *)
Definition gated (a : Act) : Prop :=
  forall s,
    ser (fst (a s)) = ser s
    /\ billing_partner_var (fst (a s)) = billing_partner_var s
    /\ (ser s && dfacs_selected s = false -> snd (a s) = []).

(** The lines of the outbound protocol. *)
Definition wire_line (l : string) : Prop :=
  l = REJECTED
  \/ l = "RTE_OVERRIDE,ACTIVATED,5" ++ LF
  \/ l = "RTE_OVERRIDE,DEACTIVATED" ++ LF
  \/ exists t x, l = status_text t x ++ LF.

Definition speaks (a : Act) : Prop :=
  forall s l, In l (snd (a s)) -> wire_line l.

(** The values the attributes range over. *)
Definition well_formed (s : App) : Prop :=
  (lock_state s = 0 \/ lock_state s = 1 \/ lock_state s = 2)
  /\ (door_state s = "OPEN" \/ door_state s = "CLOSED")
  /\ 0 <= rte_count s
  /\ 1000 <= unlock_duration s <= 3600000
  /\ (rte_override_duration s = 0 \/ rte_override_duration s = 5000)
  /\ (rte_override_active s = true -> rte_override_duration s = 5000).

(** An active override holds the lock temporarily unlocked. *)
Definition override_holds_unlock (s : App) : Prop :=
  rte_override_active s = true -> lock_state s = 1.

(** The object right after [activate_rte_override]. *)
Definition activated (t : Q) (s : App) : App :=
  set_rte_count (if rte_count_enabled s then rte_count s + 1 else rte_count s)
    (set_unlock_duration 5000
       (set_unlock_start_time (t * 1000)%Q
          (set_lock_state 1
             (set_rte_override_duration 5000
                (set_rte_override_start_time (t * 1000)%Q
                   (set_rte_override_active true s)))))).

(** The object right after [deactivate_rte_override]. *)
Definition deactivated (s : App) : App :=
  set_unlock_duration 5000 (set_lock_state 0 (set_rte_override_active false s)).

(** * Properties *)

(** Unfolding of the action combinators. *)
Ltac act_unfold :=
  unfold seq, cond, assign, skip, ser_write in *.

Ltac break_if :=
  match goal with
  | |- context [if ?c then _ else _] => destruct c eqn:?; simpl in *
  end.

(** ** The RTE trigger *)

Lemma activate_rte_override_state (t t' : Q) (s : App) :
  let s' := fst (activate_rte_override t t' s) in
  rte_override_active s' = true
  /\ rte_override_start_time s' = (t * 1000)%Q
  /\ rte_override_duration s' = 5000
  /\ lock_state s' = 1
  /\ unlock_start_time s' = rte_override_start_time s'
  /\ unlock_duration s' = rte_override_duration s'
  /\ rte_count s' = (if rte_count_enabled s then rte_count s + 1 else rte_count s)
  /\ door_state s' = door_state s.
Proof.
  unfold activate_rte_override, send_status, dfacs_selected, dialect. act_unfold.
  destruct s as [rn sr ls rc ds ust ud oa ost od lr bp at_ ano rce bpv atv anov rcev udv].
  simpl. repeat break_if; repeat split.
Qed.

Lemma trigger_rte_noop (t t' : Q) (s : App) :
  aux_is_rte s = false \/ lock_state s <> 0 ->
  trigger_rte t t' s = (s, []).
Proof.
  intros Hnoop. unfold trigger_rte, cond, skip.
  destruct (aux_is_rte s); [ | reflexivity ].
  destruct Hnoop as [Hf | Hl]; [ discriminate | ].
  destruct (Z.eqb_spec (lock_state s) 0); [ contradiction | reflexivity ].
Qed.

Lemma trigger_rte_activates (t t' : Q) (s : App) :
  aux_is_rte s = true -> lock_state s = 0 ->
  trigger_rte t t' s = activate_rte_override t t' s.
Proof.
  intros Haux Hlock. unfold trigger_rte, cond. now rewrite Haux, Hlock.
Qed.

(** C3. A trigger of the RTE input with the auxiliary input set to RTE or
    REX and the lock LOCKED activates the override for 5000 ms and forces
    TEMP_UNLOCKED, the unlock timer being the override window; with
    another auxiliary input type, or with the lock not LOCKED, the trigger
    changes nothing (and writes nothing). *)
Theorem trigger_rte_activates_or_is_noop (t t' : Q) (s : App) :
  (aux_is_rte s = true -> lock_state s = 0 ->
   let s' := fst (trigger_rte t t' s) in
   rte_override_active s' = true
   /\ rte_override_duration s' = 5000
   /\ rte_override_start_time s' = (t * 1000)%Q
   /\ lock_state s' = 1
   /\ unlock_start_time s' = rte_override_start_time s'
   /\ unlock_duration s' = rte_override_duration s')
  /\ (aux_is_rte s = false \/ lock_state s <> 0 ->
      trigger_rte t t' s = (s, [])).
Proof.
  split.
  - intros Haux Hlock.
    rewrite (trigger_rte_activates t t' s Haux Hlock).
    destruct (activate_rte_override_state t t' s)
      as (Ha & Hs & Hd & Hl & Hus & Hud & _).
    repeat split; assumption.
  - apply trigger_rte_noop.
Qed.

Lemma trigger_rte_activates_or_is_noop_witness :
  let s := init no_settings in
  let s' := fst (trigger_rte 10 10 s) in
  (rte_override_active s' = true
   /\ rte_override_duration s' = 5000
   /\ rte_override_start_time s' = (10 * 1000)%Q
   /\ lock_state s' = 1
   /\ unlock_start_time s' = rte_override_start_time s'
   /\ unlock_duration s' = rte_override_duration s')
  /\ trigger_rte 11 11 s' = (s', []).
Proof.
  intros s s'. split.
  - destruct (trigger_rte_activates_or_is_noop 10 10 s) as [H _].
    apply H; reflexivity.
  - destruct (trigger_rte_activates_or_is_noop 11 11 s') as [_ H].
    apply H. right. discriminate.
Defined.

(** The counter follows the attribute [rte_count_enabled]: a successful
    activation adds exactly 1 when the attribute holds and leaves the
    counter unchanged otherwise; a trigger that is a no-op leaves it
    unchanged. *)
Lemma rte_count_follows_attribute (t t' : Q) (s : App) :
  (aux_is_rte s = true -> lock_state s = 0 ->
   (rte_count_enabled s = true ->
    rte_count (fst (trigger_rte t t' s)) = rte_count s + 1)
   /\ (rte_count_enabled s = false ->
       rte_count (fst (trigger_rte t t' s)) = rte_count s))
  /\ (aux_is_rte s = false \/ lock_state s <> 0 ->
      rte_count (fst (trigger_rte t t' s)) = rte_count s).
Proof.
  split.
  - intros Haux Hlock.
    rewrite (trigger_rte_activates t t' s Haux Hlock).
    destruct (activate_rte_override_state t t' s)
      as (_ & _ & _ & _ & _ & _ & Hc & _).
    split; intros He; rewrite He in Hc; exact Hc.
  - intros Hnoop.
    now rewrite (trigger_rte_noop t t' s Hnoop).
Qed.

(** C4, where the code departs from it.  The configuration at the moment
    of the trigger is what the panel holds ([rte_count_enabled_var]); the
    auxiliary type and the dialect are read from the panel at the trigger,
    but the counter test of [activate_rte_override] reads the attribute
    [rte_count_enabled], the copy made by the last command handled (and
    [True] from construction).  So a successful activation with counting
    switched off in the panel adds 1 to the counter while the attribute
    is still set, and one with counting switched on in the panel leaves
    the counter unchanged while the attribute is still clear. *)
Theorem trigger_counts_by_stale_flag (t t' : Q) (s : App) :
  aux_is_rte s = true ->
  lock_state s = 0 ->
  (rte_count_enabled_var s = false -> rte_count_enabled s = true ->
   rte_count (fst (trigger_rte t t' s)) = rte_count s + 1)
  /\ (rte_count_enabled_var s = true -> rte_count_enabled s = false ->
      rte_count (fst (trigger_rte t t' s)) = rte_count s).
Proof.
  intros Haux Hlock.
  rewrite (trigger_rte_activates t t' s Haux Hlock).
  destruct (activate_rte_override_state t t' s)
    as (_ & _ & _ & _ & _ & _ & Hc & _).
  split; intros _ He; rewrite He in Hc; exact Hc.
Qed.

Lemma trigger_counts_by_stale_flag_witness :
  let s := run [EvSetRteCountEnabled false] (init no_settings) in
  let u := run [EvConnect true; EvSetRteCountEnabled false;
                EvIteration (Some "status") (at_instant 0) 0;
                EvSetRteCountEnabled true] (init no_settings) in
  (rte_count_enabled_var s = false
   /\ rte_count s = 0
   /\ rte_count (fst (trigger_rte 0 0 s)) = 1)
  /\ (rte_count_enabled_var u = true
      /\ rte_count u = 0
      /\ rte_count (fst (trigger_rte 1 1 u)) = 0).
Proof.
  intros s u.
  assert (Hs : aux_is_rte s = true /\ lock_state s = 0
               /\ rte_count_enabled_var s = false
               /\ rte_count_enabled s = true /\ rte_count s = 0)
    by (vm_compute; repeat split).
  assert (Hu : aux_is_rte u = true /\ lock_state u = 0
               /\ rte_count_enabled_var u = true
               /\ rte_count_enabled u = false /\ rte_count u = 0)
    by (vm_compute; repeat split).
  destruct Hs as (Ha & Hl & Hv & He & Hc).
  destruct Hu as (Ha' & Hl' & Hv' & He' & Hc').
  destruct (trigger_counts_by_stale_flag 0 0 s Ha Hl) as [H1 _].
  destruct (trigger_counts_by_stale_flag 1 1 u Ha' Hl') as [_ H2].
  split; (split; [ assumption | split; [ assumption | ] ]).
  - rewrite (H1 Hv He), Hc. reflexivity.
  - rewrite (H2 Hv' He'), Hc'. reflexivity.
Defined.

(** ** Commands while the override is active *)

Lemma refresh_config_spec (s : App) :
  exists c,
    refresh_config s = (c, [])
    /\ owned c = owned s
    /\ ser c = ser s
    /\ running c = running s
    /\ billing_partner c = dialect s
    /\ rte_count_enabled c = rte_count_enabled_var s
    /\ billing_partner_var c = billing_partner_var s
    /\ aux_type_var c = aux_type_var s
    /\ rte_count_enabled_var c = rte_count_enabled_var s
    /\ unlock_duration_var c = unlock_duration_var s.
Proof.
  eexists. unfold refresh_config. act_unfold. simpl.
  split; [ reflexivity | ].
  destruct s; simpl. repeat split.
Qed.

Lemma send_status_state (t : Q) (s : App) : fst (send_status t s) = s.
Proof.
  unfold send_status, ser_write.
  destruct (negb (ser s)); [ reflexivity | ].
  destruct (negb (dfacs_selected s)); reflexivity.
Qed.

Lemma send_status_output (t : Q) (s : App) :
  snd (send_status t s)
  = if ser s && dfacs_selected s then [status_text t s ++ LF] else [].
Proof.
  unfold send_status, ser_write.
  destruct (ser s); simpl; [ | reflexivity ].
  destruct (dfacs_selected s); reflexivity.
Qed.

(** [status_text] reads the owned state and the Tk variables only. *)
Lemma status_text_ext (t : Q) (s c : App) :
  owned c = owned s ->
  aux_type_var c = aux_type_var s ->
  status_text t c = status_text t s.
Proof.
  unfold owned, status_text, time_remaining, aux_is_door.
  intros Ho Ha. injection Ho as -> -> -> -> -> -> -> ->. now rewrite Ha.
Qed.

Lemma handle_command_in_override (t t' : Q) (line : string) (s : App) :
  rte_override_active s = true ->
  exists c,
    refresh_config s = (c, [])
    /\ handle_command t t' line s
       = if (upper (strip line) =? "STATUS")%string then send_status t c
         else if (dialect s =? "DFACS")%string && ser s then (c, [REJECTED])
         else (c, []).
Proof.
  intros Hact.
  destruct (refresh_config_spec s)
    as (c & Hc & Ho & Hser & _ & Hbp & _).
  exists c. split; [ exact Hc | ].
  unfold handle_command, seq. rewrite Hc.
  assert (Hact' : rte_override_active c = true).
  { unfold owned in Ho. injection Ho as _ _ _ _ _ Ha _ _. congruence. }
  unfold cond at 1. rewrite Hact'.
  destruct (upper (strip line) =? "STATUS")%string.
  - destruct (send_status t c); reflexivity.
  - unfold cond, skip, ser_write. rewrite Hbp, Hser.
    destruct (dialect s =? "DFACS")%string; simpl; [ | reflexivity ].
    destruct (ser s); reflexivity.
Qed.

(** C2. While the override is active, a command that is not a status
    query leaves the owned state as it is, and the rejection line is
    written exactly when the billing partner is DFACS; a status query is
    served (the status line is written for DFACS).  The command comes
    from the serial port, which is therefore attached. *)
Theorem override_rejects_all_but_status (t t' : Q) (line : string) (s : App) :
  rte_override_active s = true ->
  ser s = true ->
  let r := handle_command t t' line s in
  (upper (strip line) <> "STATUS" ->
   owned (fst r) = owned s
   /\ (In REJECTED (snd r) <-> dialect s = "DFACS")
   /\ (forall l, In l (snd r) -> l = REJECTED))
  /\ (upper (strip line) = "STATUS" ->
      owned (fst r) = owned s
      /\ snd r = if dfacs_selected s then [status_text t s ++ LF] else []).
Proof.
  intros Hact Hser r. subst r.
  destruct (handle_command_in_override t t' line s Hact) as (c & Hc & ->).
  destruct (refresh_config_spec s)
    as (c' & Hc' & Ho & Hsc & _ & _ & _ & Hbv & Hav & _).
  rewrite Hc in Hc'. injection Hc' as <-.
  split.
  - intros Hns. apply String.eqb_neq in Hns. rewrite Hns, Hser.
    destruct (String.eqb_spec (dialect s) "DFACS") as [Hd | Hd]; simpl.
    + split; [ exact Ho | split ].
      * split; [ intros _; exact Hd | intros _; now left ].
      * intros l [<- | []]. reflexivity.
    + split; [ exact Ho | split ].
      * split; [ intros [] | intros H; contradiction ].
      * intros l [].
  - intros Hst. rewrite Hst. simpl.
    rewrite send_status_state, send_status_output.
    split; [ exact Ho | ].
    rewrite (status_text_ext t s c Ho Hav), Hsc, Hser.
    unfold dfacs_selected, dialect. rewrite Hbv. reflexivity.
Qed.

Lemma override_rejects_all_but_status_witness :
  let s := fst (trigger_rte 10 10 (fst (connect_serial true (init no_settings)))) in
  let r := handle_command 11 11 "z" s in
  owned (fst r) = owned s /\ (In REJECTED (snd r) <-> dialect s = "DFACS").
Proof.
  intros s r.
  destruct (override_rejects_all_but_status 11 11 "z" s) as [H _];
    [ reflexivity | reflexivity | ].
  destruct H as (H1 & H2 & _); [ discriminate | ].
  split; assumption.
Defined.

(** C10. During the override a status query is matched on the upper-cased
    text before any look at the billing partner: in every dialect the
    command is the status emission; with ABC or PEAK selected that
    emission writes nothing, so the owned state is unchanged and neither a
    status line nor a rejection is written. *)
Theorem status_query_in_override_any_dialect (t t' : Q) (line : string) (s : App) :
  rte_override_active s = true ->
  upper (strip line) = "STATUS" ->
  handle_command t t' line s = send_status t (fst (refresh_config s))
  /\ (dialect s = "ABC" \/ dialect s = "PEAK" ->
      owned (fst (handle_command t t' line s)) = owned s
      /\ snd (handle_command t t' line s) = []).
Proof.
  intros Hact Hst.
  destruct (handle_command_in_override t t' line s Hact) as (c & Hc & ->).
  destruct (refresh_config_spec s)
    as (c' & Hc' & Ho & Hsc & _ & _ & _ & Hbv & Hav & _).
  rewrite Hc in Hc'. injection Hc' as <-.
  rewrite Hst, Hc. simpl. split; [ reflexivity | ].
  intros Hd.
  rewrite send_status_state, send_status_output.
  split; [ exact Ho | ].
  unfold dfacs_selected, dialect in *. rewrite Hbv.
  destruct Hd as [-> | ->]; simpl; now rewrite andb_false_r.
Qed.

Lemma status_query_in_override_any_dialect_witness :
  let s := fst (trigger_rte 10 10
                  (fst (connect_serial true
                          (init (mkSettings (Some "Peak") None None None))))) in
  owned (fst (handle_command 11 11 "Status" s)) = owned s
  /\ snd (handle_command 11 11 "Status" s) = [].
Proof.
  intros s.
  destruct (status_query_in_override_any_dialect 11 11 "Status" s) as [_ H];
    [ reflexivity | reflexivity | ].
  apply H. right. reflexivity.
Defined.

(** ** The lock command *)

Lemma process_lock_command (t t' : Q) (cmd0 : string) (s : App) :
  billing_partner s = "ABC" \/ billing_partner s = "PEAK"
  \/ billing_partner s = "DFACS" ->
  lower (fst (parse_duration cmd0)) = "z" ->
  process_normal_commands t t' cmd0 s
  = (set_lock_state 0 s, snd (send_status t (set_lock_state 0 s))).
Proof.
  intros Hbp Hz. unfold process_normal_commands.
  destruct (parse_duration cmd0) as [cmd d]. simpl in Hz.
  assert (H0 : (cmd =? "0")%string = false).
  { apply String.eqb_neq. intros ->. discriminate Hz. }
  rewrite Hz, H0. act_unfold.
  pose proof (send_status_state t (set_lock_state 0 s)) as Hst.
  destruct Hbp as [-> | [-> | ->]]; simpl;
    destruct (send_status t (set_lock_state 0 s)) as [a l];
    simpl in Hst; subst a; reflexivity.
Qed.

Lemma handle_command_no_override (t t' : Q) (line : string) (s : App) :
  rte_override_active s = false ->
  exists c,
    refresh_config s = (c, [])
    /\ handle_command t t' line s = process_normal_commands t t' (strip line) c.
Proof.
  intros Hact.
  destruct (refresh_config_spec s) as (c & Hc & Ho & _).
  exists c. split; [ exact Hc | ].
  unfold handle_command, seq. rewrite Hc.
  assert (Hact' : rte_override_active c = false).
  { unfold owned in Ho. injection Ho as _ _ _ _ _ Ha _ _. congruence. }
  unfold cond. rewrite Hact'.
  destruct (process_normal_commands t t' (strip line) c); reflexivity.
Qed.

(** C7. In each of the three dialects, with no override active, a line
    whose command word is "z" in either letter case leaves the lock
    LOCKED whatever the lock state was, and the same command handled
    again (at any later time) leaves the whole object as it is. *)
Theorem lock_command_locks_idempotent
    (t1 t1' t2 t2' : Q) (line : string) (s : App) :
  known_dialect s ->
  rte_override_active s = false ->
  lower (command_word line) = "z" ->
  let s1 := fst (handle_command t1 t1' line s) in
  lock_state s1 = 0
  /\ rte_override_active s1 = false
  /\ fst (handle_command t2 t2' line s1) = s1.
Proof.
  intros Hd Hact Hz s1.
  assert (Hstep : forall u u' x, known_dialect x -> rte_override_active x = false ->
            fst (handle_command u u' line x)
            = set_lock_state 0 (fst (refresh_config x))).
  { intros u u' x Hdx Hax.
    destruct (handle_command_no_override u u' line x Hax) as (c & Hc & ->).
    destruct (refresh_config_spec x) as (c' & Hc' & _ & _ & _ & Hbp & _).
    rewrite Hc in Hc'. injection Hc' as <-.
    rewrite Hc. simpl.
    rewrite (process_lock_command u u' (strip line) c); [ reflexivity | | exact Hz ].
    rewrite Hbp. exact Hdx. }
  assert (H1 : s1 = set_lock_state 0 (fst (refresh_config s))).
  { subst s1. apply Hstep; assumption. }
  assert (Hd1 : known_dialect s1).
  { rewrite H1. destruct s. exact Hd. }
  assert (Ha1 : rte_override_active s1 = false).
  { rewrite H1. destruct s. exact Hact. }
  split; [ rewrite H1; reflexivity | ].
  split; [ exact Ha1 | ].
  rewrite (Hstep t2 t2' s1 Hd1 Ha1).
  rewrite H1. destruct s. reflexivity.
Qed.

Lemma lock_command_locks_idempotent_witness :
  let s := fst (handle_command 1 1 "a"
                  (fst (connect_serial true
                          (init (mkSettings (Some "ABC") None None None))))) in
  let s1 := fst (handle_command 2 2 " Z " s) in
  lock_state s = 2
  /\ lock_state s1 = 0
  /\ fst (handle_command 3 3 " Z " s1) = s1.
Proof.
  intros s s1. split; [ reflexivity | ].
  destruct (lock_command_locks_idempotent 2 2 3 3 " Z " s) as (H1 & _ & H2).
  - left. reflexivity.
  - reflexivity.
  - reflexivity.
  - split; assumption.
Defined.

(** ** The acknowledge command *)

Lemma process_ack_command (t t' : Q) (cmd0 : string) (s : App) :
  billing_partner s = "DFACS" ->
  lower (fst (parse_duration cmd0)) = "ack" ->
  fst (process_normal_commands t t' cmd0 s)
  = if rte_count_enabled s then set_rte_count 0 s else s.
Proof.
  intros Hbp Hz. unfold process_normal_commands.
  destruct (parse_duration cmd0) as [cmd d]. simpl in Hz.
  assert (H0 : (cmd =? "0")%string = false).
  { apply String.eqb_neq. intros ->. discriminate Hz. }
  rewrite Hz, H0, Hbp. act_unfold. simpl.
  destruct (rte_count_enabled s).
  - pose proof (send_status_state t (set_rte_count 0 s)) as Hst.
    destruct (send_status t (set_rte_count 0 s)) as [a l]. exact Hst.
  - pose proof (send_status_state t s) as Hst.
    destruct (send_status t s) as [a l]. exact Hst.
Qed.

(** C5, as the code has it.  In the DFACS dialect with no override
    active, the "ack" command sets the RTE counter to 0 when counting is
    enabled in the configuration in force for the command and leaves the
    counter as it is when counting is disabled; nothing else of the owned
    state changes, in particular not the override flag. *)
Theorem ack_resets_counter_if_counting_enabled
    (t t' : Q) (line : string) (s : App) :
  dialect s = "DFACS" ->
  rte_override_active s = false ->
  lower (command_word line) = "ack" ->
  let s' := fst (handle_command t t' line s) in
  rte_count s' = (if rte_count_enabled_var s then 0 else rte_count s)
  /\ rte_override_active s' = rte_override_active s
  /\ owned s' = owned (set_rte_count (rte_count s') s).
Proof.
  intros Hd Hact Hz s'. subst s'.
  destruct (handle_command_no_override t t' line s Hact) as (c & Hc & ->).
  destruct (refresh_config_spec s) as (c' & Hc' & Ho & _ & _ & Hbp & Hen & _).
  rewrite Hc in Hc'. injection Hc' as <-.
  rewrite (process_ack_command t t' (strip line) c); [ | congruence | exact Hz ].
  rewrite Hen. unfold owned in Ho. injection Ho as Ho1 Ho2 Ho3 Ho4 Ho5 Ho6 Ho7 Ho8.
  destruct (rte_count_enabled_var s); unfold owned; simpl;
    repeat split; congruence.
Qed.

Lemma ack_resets_counter_if_counting_enabled_witness :
  let s := fst (trigger_rte 0 0 (fst (connect_serial true (init no_settings)))) in
  let s0 := fst (handle_rte_override_timer 6 6 s) in
  rte_count s0 = 1 /\ rte_count (fst (handle_command 7 7 "ACK" s0)) = 0.
Proof.
  intros s s0. split; [ reflexivity | ].
  destruct (ack_resets_counter_if_counting_enabled 7 7 "ACK" s0) as (H & _);
    [ reflexivity | reflexivity | reflexivity | exact H ].
Defined.

(** C5, as stated, fails: after one counted override has expired and
    counting has been switched off in the configuration panel, "ack" in
    the DFACS dialect with no override active leaves the counter at 1. *)
Lemma ack_keeps_counter_when_counting_disabled :
  let s := run [EvConnect true; EvTriggerRte 0 0;
                EvIteration None (at_instant 6) 0;
                EvSetRteCountEnabled false] (init no_settings) in
  dialect s = "DFACS"
  /\ rte_override_active s = false
  /\ lower (command_word "ack") = "ack"
  /\ rte_count s = 1
  /\ rte_count (fst (handle_command 7 7 "ack" s)) = 1
  /\ rte_count (fst (handle_command 7 7 "ack" s)) <> 0.
Proof.
  vm_compute. repeat split; discriminate.
Qed.

(** ** The phrase "open sesame!" *)

Lemma lower_char_is_space (c : ascii) :
  (lower_char c =? " ")%char = (c =? " ")%char.
Proof.
  destruct c as [[] [] [] [] [] [] [] []]; reflexivity.
Qed.

Lemma contains_space_lower (s : string) :
  contains_space (lower s) = contains_space s.
Proof.
  unfold lower.
  induction s as [ | c r IH]; simpl; [ reflexivity | ].
  now rewrite lower_char_is_space, IH.
Qed.

Lemma split_space_1_lower (s : string) :
  split_space_1 (lower s)
  = (lower (fst (split_space_1 s)), lower (snd (split_space_1 s))).
Proof.
  unfold lower.
  induction s as [ | c r IH]; simpl; [ reflexivity | ].
  rewrite lower_char_is_space.
  destruct (c =? " ")%char; [ reflexivity | ].
  rewrite IH.
  destruct (split_space_1 r) as [h tl]. reflexivity.
Qed.

(** The parser cuts the phrase at its space: the command word that
    reaches the dialect tables is "open" (in the case of the input). *)
Lemma parse_duration_open_sesame (cmd0 : string) :
  lower cmd0 = "open sesame!" ->
  lower (fst (parse_duration cmd0)) = "open".
Proof.
  intros H. unfold parse_duration.
  rewrite <- contains_space_lower, H. simpl contains_space. cbv iota.
  pose proof (split_space_1_lower cmd0) as Hs. rewrite H in Hs.
  destruct (split_space_1 cmd0) as [p0 p1]. simpl in *.
  injection Hs as Hs0 Hs1. symmetry. exact Hs0.
Qed.

Lemma process_open_word (t t' : Q) (cmd0 : string) (s : App) :
  lower (fst (parse_duration cmd0)) = "open" ->
  process_normal_commands t t' cmd0 s = (s, []).
Proof.
  intros Hz. unfold process_normal_commands.
  destruct (parse_duration cmd0) as [cmd d]. simpl in Hz.
  assert (H0 : (cmd =? "0")%string = false).
  { apply String.eqb_neq. intros ->. discriminate Hz. }
  rewrite Hz, H0. simpl. unfold skip.
  repeat break_if; reflexivity.
Qed.

(** C1 on the code.  With no override active, a line whose stripped text
    is "open sesame!" in any letter case is not a timed unlock in any
    dialect: the command only refreshes the configuration, so a LOCKED
    controller stays LOCKED and nothing is written. *)
Theorem open_sesame_is_not_recognized (t t' : Q) (line : string) (s : App) :
  lower (strip line) = "open sesame!" ->
  rte_override_active s = false ->
  handle_command t t' line s = refresh_config s
  /\ owned (fst (handle_command t t' line s)) = owned s
  /\ snd (handle_command t t' line s) = [].
Proof.
  intros Hp Hact.
  destruct (handle_command_no_override t t' line s Hact) as (c & Hc & ->).
  destruct (refresh_config_spec s) as (c' & Hc' & Ho & _).
  rewrite Hc in Hc'. injection Hc' as <-.
  rewrite (process_open_word t t' (strip line) c
             (parse_duration_open_sesame _ Hp)).
  rewrite Hc. repeat split. exact Ho.
Qed.

Lemma open_sesame_is_not_recognized_witness :
  let s := fst (connect_serial true
                  (init (mkSettings (Some "PEAK") None None None))) in
  dialect s = "PEAK" /\ lock_state s = 0
  /\ lock_state (fst (handle_command 1 1 "Open Sesame!" s)) = 0.
Proof.
  intros s. split; [ reflexivity | split; [ reflexivity | ] ].
  destruct (open_sesame_is_not_recognized 1 1 "Open Sesame!" s) as (_ & H & _);
    [ reflexivity | reflexivity | ].
  exact (f_equal o_lock_state H).
Defined.

(** ** The duration argument *)

Lemma contains_space_split (line : string) :
  contains_space line = true ->
  exists c tok,
    line = c ++ " " ++ tok
    /\ contains_space c = false
    /\ split_space_1 line = (c, tok).
Proof.
  induction line as [ | a r IH]; cbn [contains_space split_space_1];
    [ discriminate | ].
  destruct (a =? " ")%char eqn:Ha.
  - intros _. apply Ascii.eqb_eq in Ha. subst a.
    exists "", r. repeat split.
  - cbn [orb]. intros Hr. destruct (IH Hr) as (c & tok & Hl & Hc & Hs).
    exists (String a c), tok.
    split; [ | split ].
    + change (String a r = String a (c ++ " " ++ tok)). now f_equal.
    + cbn [contains_space]. now rewrite Ha, Hc.
    + now rewrite Hs.
Qed.

Lemma split_at_first_space (c tok : string) :
  contains_space c = false ->
  contains_space (c ++ " " ++ tok) = true
  /\ split_space_1 (c ++ " " ++ tok) = (c, tok).
Proof.
  induction c as [ | a r IH]; [ intros _; split; reflexivity | ].
  change (String a r ++ " " ++ tok) with (String a (r ++ " " ++ tok)).
  cbn [contains_space split_space_1].
  destruct (a =? " ")%char; cbn [orb]; [ discriminate | ].
  intros Hr. destruct (IH Hr) as [H1 H2]. rewrite H1, H2. split; reflexivity.
Qed.

(** *** What [int] accepts *)

Lemma append_assoc (a b c : string) : (a ++ b) ++ c = a ++ b ++ c.
Proof.
  induction a as [ | x a IH]; [ reflexivity | ].
  change (String x ((a ++ b) ++ c) = String x (a ++ b ++ c)). now rewrite IH.
Qed.

Lemma append_empty_r (a : string) : a ++ "" = a.
Proof.
  induction a as [ | x a IH]; [ reflexivity | ].
  change (String x (a ++ "") = String x a). now rewrite IH.
Qed.

Lemma int_space_char (c : ascii) :
  is_int_space c = true ->
  is_digit c = false /\ (c =? "_")%char = false
  /\ (c =? "-")%char = false /\ (c =? "+")%char = false.
Proof.
  destruct c as [[] [] [] [] [] [] [] []]; vm_compute; intros H;
    first [ discriminate H | repeat split ].
Qed.

Lemma digit_char (c : ascii) :
  is_digit c = true ->
  is_int_space c = false /\ (c =? "_")%char = false
  /\ (c =? "-")%char = false /\ (c =? "+")%char = false.
Proof.
  destruct c as [[] [] [] [] [] [] [] []]; vm_compute; intros H;
    first [ discriminate H | repeat split ].
Qed.

Lemma int_lstrip_spaces (pre x : string) :
  only_int_space pre = true -> int_lstrip (pre ++ x) = int_lstrip x.
Proof.
  induction pre as [ | c r IH]; [ reflexivity | ].
  cbn [only_int_space]. intros H. apply andb_true_iff in H. destruct H as [Hc Hr].
  change (String c r ++ x) with (String c (r ++ x)).
  cbn [int_lstrip]. rewrite Hc. now apply IH.
Qed.

Lemma int_lstrip_decompose (s : string) :
  exists pre, s = pre ++ int_lstrip s /\ only_int_space pre = true.
Proof.
  induction s as [ | c r IH]; [ now exists "" | ].
  cbn [int_lstrip]. destruct (is_int_space c) eqn:Ec.
  - destruct IH as (pre & Hs & Hp). exists (String c pre).
    split; [ change (String c r = String c (pre ++ int_lstrip r)); now f_equal | ].
    cbn [only_int_space]. now rewrite Ec, Hp.
  - now exists "".
Qed.

Lemma parse_digits_spaces (v : Z) (k : nat) (post : string) :
  only_int_space post = true -> parse_digits true v k post = Some (v, k).
Proof.
  destruct post as [ | c r]; [ reflexivity | ].
  intros H. cbn [parse_digits].
  assert (Hc : is_int_space c = true).
  { cbn [only_int_space] in H. now apply andb_true_iff in H. }
  destruct (int_space_char c Hc) as (Hd & Hu & _).
  rewrite Hd, Hu, H. reflexivity.
Qed.

Lemma parse_digits_digit (b : bool) (acc : Z) (cnt : nat) (c : ascii) (r : string) :
  is_digit c = true ->
  parse_digits b acc cnt (String c r)
  = parse_digits true (10 * acc + digit_value c) (S cnt) r.
Proof. intros H. cbn [parse_digits]. now rewrite H. Qed.

Lemma parse_digits_underscore (acc : Z) (cnt : nat) (r : string) :
  parse_digits true acc cnt (String "_" r) = parse_digits false acc cnt r.
Proof. reflexivity. Qed.

(** Reading a literal leaves the parser with its value and digit count. *)
Lemma parse_digits_body (body : string) (v : Z) (k : nat) :
  int_body body v k ->
  forall r, parse_digits false 0 0 (body ++ r) = parse_digits true v k r.
Proof.
  induction 1 as [c Hc | s v k c Hs IH Hc | s v k c Hs IH Hc]; intros r.
  - change (String c "" ++ r) with (String c r).
    now rewrite (parse_digits_digit false 0 0 c r Hc).
  - rewrite append_assoc. change (String c "" ++ r) with (String c r).
    rewrite IH. now apply parse_digits_digit.
  - rewrite !append_assoc.
    change ("_" ++ String c "" ++ r) with (String "_" (String c r)).
    rewrite IH, parse_digits_underscore. now apply parse_digits_digit.
Qed.

Lemma parse_digits_sound (s : string) :
  forall p b acc cnt v k,
    read_so_far p b acc cnt ->
    parse_digits b acc cnt s = Some (v, k) ->
    exists body post,
      p ++ s = body ++ post /\ int_body body v k /\ only_int_space post = true.
Proof.
  induction s as [ | c r IH]; intros p b acc cnt v k Hst Hp.
  - cbn [parse_digits] in Hp. destruct b; [ | discriminate Hp ].
    injection Hp as <- <-. exists p, "". repeat split. exact Hst.
  - cbn [parse_digits] in Hp.
    destruct (is_digit c) eqn:Hd.
    + assert (Hst' : read_so_far (p ++ String c "") true
                       (10 * acc + digit_value c) (S cnt)).
      { unfold read_so_far in *. destruct b.
        - now apply body_more.
        - destruct Hst as [(-> & -> & ->) | (q & -> & Hq)].
          + now apply body_digit.
          + rewrite append_assoc. now apply body_underscore. }
      destruct (IH _ _ _ _ _ _ Hst' Hp) as (body & post & He & Hb & Hpost).
      exists body, post. rewrite append_assoc in He. now repeat split.
    + destruct (c =? "_")%char eqn:Hu.
      * destruct b; [ | discriminate Hp ].
        apply Ascii.eqb_eq in Hu. subst c.
        assert (Hst' : read_so_far (p ++ "_") false acc cnt).
        { right. now exists p. }
        destruct (IH _ _ _ _ _ _ Hst' Hp) as (body & post & He & Hb & Hpost).
        exists body, post. rewrite append_assoc in He. now repeat split.
      * destruct b; cbn [andb] in Hp; [ | discriminate Hp ].
        destruct (only_int_space (String c r)) eqn:Hs; [ | discriminate Hp ].
        injection Hp as <- <-.
        exists p, (String c r). now repeat split.
Qed.

Lemma int_body_head (body : string) (v : Z) (k : nat) :
  int_body body v k -> exists c r, body = String c r /\ is_digit c = true.
Proof.
  induction 1 as [c Hc | s v k c Hs IH Hc | s v k c Hs IH Hc].
  - now exists c, "".
  - destruct IH as (c0 & r0 & -> & H0). now exists c0, (r0 ++ String c "").
  - destruct IH as (c0 & r0 & -> & H0).
    now exists c0, (r0 ++ "_" ++ String c "").
Qed.

Lemma within_digit_limit_some (r : option (Z * nat)) (n : Z) :
  within_digit_limit r = Some n <->
  exists k, r = Some (n, k) /\ (k <= int_max_str_digits)%nat.
Proof.
  unfold within_digit_limit. split.
  - destruct r as [[v k] | ]; [ | discriminate ].
    destruct (Nat.leb_spec k int_max_str_digits); [ | discriminate ].
    intros [= <-]. now exists k.
  - intros (k & -> & Hk). apply Nat.leb_le in Hk. now rewrite Hk.
Qed.

(** [py_int] accepts exactly the literals of [int_literal], with their
    values. *)
Lemma py_int_correct (tok : string) (n : Z) :
  py_int tok = Some n <-> int_literal tok n.
Proof.
  split.
  - unfold py_int. intros H.
    destruct (int_lstrip_decompose tok) as (pre & Ht & Hpre).
    destruct (int_lstrip tok) as [ | c r]; [ discriminate H | ].
    assert (Hinit : read_so_far "" false 0 0) by (left; repeat split).
    destruct (c =? "-")%char eqn:Em; [ | destruct (c =? "+")%char eqn:Ep ].
    + apply Ascii.eqb_eq in Em. subst c.
      destruct (within_digit_limit (parse_digits false 0 0 r)) as [v | ] eqn:E;
        [ | discriminate H ].
      cbn [option_map] in H. injection H as <-.
      apply within_digit_limit_some in E. destruct E as (k & E & Hk).
      destruct (parse_digits_sound r _ _ _ _ _ _ Hinit E)
        as (body & post & He & Hb & Hpost).
      cbn [append] in He. subst r.
      exists pre, body, post, v, k. repeat split; try assumption.
      right. right. split; [ exact Ht | reflexivity ].
    + apply Ascii.eqb_eq in Ep. subst c.
      apply within_digit_limit_some in H. destruct H as (k & E & Hk).
      destruct (parse_digits_sound r _ _ _ _ _ _ Hinit E)
        as (body & post & He & Hb & Hpost).
      cbn [append] in He. subst r.
      exists pre, body, post, n, k. repeat split; try assumption.
      right. left. split; [ exact Ht | reflexivity ].
    + apply within_digit_limit_some in H. destruct H as (k & E & Hk).
      destruct (parse_digits_sound (String c r) _ _ _ _ _ _ Hinit E)
        as (body & post & He & Hb & Hpost).
      cbn [append] in He. rewrite He in Ht.
      exists pre, body, post, n, k. repeat split; try assumption.
      left. split; [ exact Ht | reflexivity ].
  - intros (pre & body & post & v & k & Hpre & Hpost & Hb & Hk & Hcases).
    destruct (int_body_head body v k Hb) as (c0 & r0 & Eb & Hd0).
    destruct (digit_char c0 Hd0) as (Hs0 & _ & Hm0 & Hp0).
    assert (Hparse : parse_digits false 0 0 (body ++ post) = Some (v, k)).
    { rewrite (parse_digits_body body v k Hb).
      now apply parse_digits_spaces. }
    assert (Hlim : within_digit_limit (parse_digits false 0 0 (body ++ post))
                   = Some v).
    { apply within_digit_limit_some. now exists k. }
    unfold py_int.
    destruct Hcases as [[-> ->] | [[-> ->] | [-> ->]]];
      rewrite (int_lstrip_spaces pre _ Hpre).
    + rewrite Eb in *.
      change (String c0 r0 ++ post) with (String c0 (r0 ++ post)) in *.
      cbn [int_lstrip]. rewrite Hs0, Hm0, Hp0. exact Hlim.
    + change ("+" ++ body ++ post) with (String "+" (body ++ post)).
      cbn [int_lstrip].
      change (is_int_space "+") with false. cbv iota.
      change ("+" =? "-")%char with false.
      change ("+" =? "+")%char with true. cbv iota. exact Hlim.
    + change ("-" ++ body ++ post) with (String "-" (body ++ post)).
      cbn [int_lstrip].
      change (is_int_space "-") with false. cbv iota.
      change ("-" =? "-")%char with true. cbv iota.
      now rewrite Hlim.
Qed.

Lemma py_int_none (tok : string) :
  py_int tok = None <-> forall n, ~ int_literal tok n.
Proof.
  split.
  - intros H n Hn. apply py_int_correct in Hn. congruence.
  - intros H. destruct (py_int tok) as [n | ] eqn:E; [ | reflexivity ].
    exfalso. apply (H n). now apply py_int_correct.
Qed.

Lemma parse_duration_token (c tok : string) :
  contains_space c = false ->
  parse_duration (c ++ " " ++ tok)
  = (c, match py_int tok with
        | Some d => Z.max 1 (Z.min 3600 d)
        | None => 5
        end).
Proof.
  intros Hc. unfold parse_duration.
  now destruct (split_at_first_space c tok Hc) as [-> ->].
Qed.

(** C6, as the code has it.  A line that contains a space is a command
    word without space, one space, and a token.  For ASCII text, when the
    token is one that [int] accepts (white space, an optional sign, a
    decimal literal of at most 4300 digits with single underscores
    allowed between digits, white space) with value [n], the duration is
    [n] brought into the interval from 1 to 3600; for every other token
    the duration is the default 5. *)
Theorem duration_token_read_by_int :
  (forall line, contains_space line = true ->
     exists c tok, line = c ++ " " ++ tok /\ contains_space c = false)
  /\ (forall c tok,
        contains_space c = false ->
        is_ascii tok = true ->
        (forall n, int_literal tok n ->
           parse_duration (c ++ " " ++ tok) = (c, Z.max 1 (Z.min 3600 n))
           /\ 1 <= Z.max 1 (Z.min 3600 n) <= 3600
           /\ (n < 1 -> Z.max 1 (Z.min 3600 n) = 1)
           /\ (3600 < n -> Z.max 1 (Z.min 3600 n) = 3600)
           /\ (1 <= n <= 3600 -> Z.max 1 (Z.min 3600 n) = n))
        /\ ((forall n, ~ int_literal tok n) ->
            parse_duration (c ++ " " ++ tok) = (c, 5))).
Proof.
  split.
  - intros line Hsp.
    destruct (contains_space_split line Hsp) as (c & tok & Hl & Hc & _).
    now exists c, tok.
  - intros c tok Hc _. rewrite (parse_duration_token c tok Hc). split.
    + intros n Hn. apply py_int_correct in Hn. rewrite Hn.
      split; [ reflexivity | lia ].
    + intros Hn. apply py_int_none in Hn. now rewrite Hn.
Qed.

Lemma duration_token_read_by_int_witness :
  parse_duration "0 7200" = ("0", 3600)
  /\ parse_duration "0 -3" = ("0", 1)
  /\ parse_duration "0 1_0" = ("0", 10)
  /\ parse_duration "0 ten" = ("0", 5).
Proof.
  destruct duration_token_read_by_int as [_ H].
  destruct (H "0" "7200" eq_refl eq_refl) as [H1 _].
  destruct (H "0" "-3" eq_refl eq_refl) as [H2 _].
  destruct (H "0" "1_0" eq_refl eq_refl) as [H3 _].
  destruct (H "0" "ten" eq_refl eq_refl) as [_ H4].
  split; [ | split; [ | split ] ].
  - apply (H1 7200). apply py_int_correct. vm_compute. reflexivity.
  - apply (H2 (-3)). apply py_int_correct. vm_compute. reflexivity.
  - apply (H3 10). apply py_int_correct. vm_compute. reflexivity.
  - apply H4. apply py_int_none. vm_compute. reflexivity.
Defined.

Lemma nines_snoc (k : nat) : nines k ++ "9" = nines (S k).
Proof.
  induction k as [ | k IH]; [ reflexivity | ].
  change (String "9" (nines k ++ "9") = String "9" (nines (S k))).
  now rewrite IH.
Qed.

Lemma nines_body (k : nat) :
  exists v, int_body (nines (S k)) v (S k) /\ 9 * Z.of_nat (S k) <= v.
Proof.
  induction k as [ | k (v & Hb & Hv)].
  - exists 9. split; [ exact (body_digit "9" eq_refl) | lia ].
  - exists (10 * v + 9). split.
    + rewrite <- nines_snoc. exact (body_more _ _ _ "9" Hb eq_refl).
    + lia.
Qed.

(** C6, as stated, fails: the token of 4301 nines is a decimal literal of
    a value above 3600, yet the duration of the line "0 999...9" is the
    default 5 and not 3600. *)
Lemma long_numeral_gets_default_duration :
  (exists v, int_body (nines 4301) v 4301 /\ 3600 < v)
  /\ is_ascii (nines 4301) = true
  /\ contains_space ("0 " ++ nines 4301) = true
  /\ parse_duration ("0 " ++ nines 4301) = ("0", 5)
  /\ snd (parse_duration ("0 " ++ nines 4301)) <> 3600.
Proof.
  split.
  - destruct (nines_body 4300) as (v & Hb & Hv). exists v. split; [ exact Hb | lia ].
  - assert (H : parse_duration ("0 " ++ nines 4301) = ("0", 5))
      by (vm_compute; reflexivity).
    split; [ vm_compute; reflexivity | ].
    split; [ vm_compute; reflexivity | ].
    split; [ exact H | ].
    rewrite H. discriminate.
Qed.

(** *** [int] reads the decimal numerals that [str] prints *)

Lemma rstrip_no_space (s : string) : no_space s = true -> rstrip s = s.
Proof.
  induction s as [ | c r IH]; simpl; [ reflexivity | ].
  intros H. apply andb_true_iff in H. destruct H as [Hc Hr].
  rewrite (IH Hr). apply negb_true_iff in Hc. rewrite Hc.
  destruct r; reflexivity.
Qed.

Lemma strip_no_space (s : string) : no_space s = true -> strip s = s.
Proof.
  intros H. unfold strip. rewrite (rstrip_no_space s H).
  destruct s as [ | c r]; simpl in *; [ reflexivity | ].
  apply andb_true_iff in H. destruct H as [Hc _].
  apply negb_true_iff in Hc. now rewrite Hc.
Qed.

Lemma parse_digits_numeral (d : Decimal.uint) (acc : Z) (cnt : nat) :
  parse_digits true acc cnt (NilEmpty.string_of_uint d)
  = Some (horner d acc,
          (cnt + String.length (NilEmpty.string_of_uint d))%nat).
Proof.
  revert acc cnt.
  induction d; intros acc cnt;
    cbn [NilEmpty.string_of_uint horner String.length];
    [ cbn [parse_digits]; now rewrite Nat.add_0_r | .. ];
    rewrite parse_digits_digit by reflexivity;
    match goal with
    | |- context [digit_value ?c] =>
        let v := eval vm_compute in (digit_value c) in
        change (digit_value c) with v
    end;
    rewrite IHd, Nat.add_succ_r; do 2 f_equal; f_equal; lia.
Qed.

Lemma parse_digits_numeral_start (d : Decimal.uint) (acc : Z) (cnt : nat) :
  d <> Decimal.Nil ->
  parse_digits false acc cnt (NilEmpty.string_of_uint d)
  = Some (horner d acc,
          (cnt + String.length (NilEmpty.string_of_uint d))%nat).
Proof.
  intros Hd. rewrite <- parse_digits_numeral.
  destruct d; [ contradiction | .. ];
    cbn [NilEmpty.string_of_uint];
    now rewrite !parse_digits_digit by reflexivity.
Qed.

Lemma no_space_numeral (d : Decimal.uint) :
  no_space (NilEmpty.string_of_uint d) = true.
Proof. induction d; simpl; auto. Qed.

Lemma int_lstrip_numeral (d : Decimal.uint) :
  int_lstrip (NilEmpty.string_of_uint d) = NilEmpty.string_of_uint d.
Proof. destruct d; reflexivity. Qed.

Lemma horner_acc (d : Decimal.uint) (acc : positive) :
  horner d (Zpos acc) = Zpos (Pos.of_uint_acc d acc).
Proof.
  revert acc.
  induction d; intros acc; cbn [horner Pos.of_uint_acc]; [ reflexivity | .. ];
    rewrite <- IHd; f_equal; lia.
Qed.

Lemma horner_value (d : Decimal.uint) : horner d 0 = Z.of_N (Pos.of_uint d).
Proof.
  induction d; cbn [horner Pos.of_uint]; [ reflexivity | exact IHd | .. ];
    match goal with
    | |- horner d ?a = _ =>
        let v := eval vm_compute in a in change a with v
    end;
    apply horner_acc.
Qed.

Lemma numeral_nonnil_text (p : positive) :
  NilZero.string_of_uint (Pos.to_uint p)
  = NilEmpty.string_of_uint (Pos.to_uint p).
Proof.
  pose proof (DecimalPos.Unsigned.to_uint_nonnil p) as Hnn.
  unfold NilZero.string_of_uint.
  destruct (Pos.to_uint p); [ contradiction | .. ]; reflexivity.
Qed.

Lemma parse_positive (p : positive) :
  (String.length (NilEmpty.string_of_uint (Pos.to_uint p)) <= int_max_str_digits)%nat ->
  within_digit_limit
    (parse_digits false 0 0 (NilEmpty.string_of_uint (Pos.to_uint p)))
  = Some (Zpos p).
Proof.
  intros Hlen.
  pose proof (DecimalPos.Unsigned.to_uint_nonnil p) as Hnn.
  rewrite (parse_digits_numeral_start (Pos.to_uint p) 0 0 Hnn).
  rewrite horner_value, DecimalPos.Unsigned.of_to.
  apply within_digit_limit_some.
  eexists. split; [ reflexivity | exact Hlen ].
Qed.

(** [int(str(n)) == n] for an integer of at most 4300 digits *)
Lemma py_int_str (n : Z) :
  (decimal_digits n <= int_max_str_digits)%nat -> py_int (str n) = Some n.
Proof.
  unfold decimal_digits, str. destruct n as [ | p | p ].
  - intros _. reflexivity.
  - cbn [Z.abs Z.to_int NilZero.string_of_int].
    rewrite numeral_nonnil_text. intros Hlen.
    unfold py_int. rewrite int_lstrip_numeral.
    pose proof (parse_positive p Hlen) as Hp.
    pose proof (DecimalPos.Unsigned.to_uint_nonnil p) as Hnn.
    destruct (Pos.to_uint p) eqn:E; [ contradiction | .. ]; exact Hp.
  - cbn [Z.abs Z.to_int NilZero.string_of_int].
    rewrite numeral_nonnil_text. intros Hlen.
    unfold py_int.
    change (int_lstrip (String "-" (NilEmpty.string_of_uint (Pos.to_uint p))))
      with (String "-" (NilEmpty.string_of_uint (Pos.to_uint p))).
    change ("-" =? "-")%char with true. cbv iota.
    now rewrite (parse_positive p Hlen).
Qed.

(** A command word followed by one space and the numeral of [n] gets the
    duration [n] clamped to the interval from 1 to 3600. *)
Lemma parse_duration_numeral (c : string) (n : Z) :
  contains_space c = false ->
  (decimal_digits n <= int_max_str_digits)%nat ->
  parse_duration (c ++ " " ++ str n) = (c, Z.max 1 (Z.min 3600 n)).
Proof.
  intros Hc Hn. rewrite (parse_duration_token c (str n) Hc).
  now rewrite py_int_str.
Qed.

(** ** The time field of a status record *)








(** ** Return to the construction defaults *)

Create HintDb door discriminated.

Lemma keeps_door_skip : keeps_door skip.
Proof. intros s. reflexivity. Qed.

Lemma keeps_door_write (data : string) : keeps_door (ser_write data).
Proof. intros s. reflexivity. Qed.

Lemma keeps_door_seq (a b : Act) :
  keeps_door a -> keeps_door b -> keeps_door (a ;; b).
Proof.
  intros Ha Hb s. unfold seq.
  specialize (Ha s). destruct (a s) as [s1 o1].
  specialize (Hb s1). destruct (b s1) as [s2 o2].
  simpl in *. congruence.
Qed.

Lemma keeps_door_cond (c : App -> bool) (a b : Act) :
  keeps_door a -> keeps_door b -> keeps_door (cond c a b).
Proof.
  intros Ha Hb s. unfold cond. destruct (c s); [ apply Ha | apply Hb ].
Qed.

Lemma keeps_door_assign (f : App -> App) :
  (forall s, door_state (f s) = door_state s) -> keeps_door (assign f).
Proof. intros Hf s. apply Hf. Qed.

Lemma keeps_door_send_status (t : Q) : keeps_door (send_status t).
Proof. intros s. now rewrite send_status_state. Qed.

#[local] Hint Resolve keeps_door_skip keeps_door_write keeps_door_seq
  keeps_door_cond keeps_door_send_status : door.

Ltac door_assign :=
  apply keeps_door_assign; intros []; reflexivity.

#[local] Hint Extern 1 (keeps_door (assign _)) => door_assign : door.

Lemma keeps_door_unlock_door (t t' : Q) (d : Z) : keeps_door (unlock_door t t' d).
Proof. unfold unlock_door. auto 10 with door. Qed.

Lemma keeps_door_activate (t t' : Q) : keeps_door (activate_rte_override t t').
Proof.
  intros s. now destruct (activate_rte_override_state t t' s)
    as (_ & _ & _ & _ & _ & _ & _ & H).
Qed.

Lemma keeps_door_deactivate (t : Q) : keeps_door (deactivate_rte_override t).
Proof. unfold deactivate_rte_override. auto 10 with door. Qed.

#[local] Hint Resolve keeps_door_unlock_door keeps_door_activate
  keeps_door_deactivate : door.

Lemma keeps_door_override_timer (t t' : Q) :
  keeps_door (handle_rte_override_timer t t').
Proof.
  unfold handle_rte_override_timer. apply keeps_door_cond; auto with door.
  intros s. cbv zeta. break_if; auto with door.
  apply keeps_door_deactivate.
Qed.

Lemma keeps_door_unlock_timer (t t' : Q) : keeps_door (handle_unlock_timer t t').
Proof.
  unfold handle_unlock_timer. apply keeps_door_cond; auto with door.
  intros s. cbv zeta. break_if; auto with door.
  assert (H : keeps_door (assign (set_lock_state 0) ;;
                          assign (set_unlock_duration 5000) ;; send_status t'))
    by auto 10 with door.
  apply H.
Qed.

Lemma keeps_door_process (t t' : Q) (cmd0 : string) :
  keeps_door (process_normal_commands t t' cmd0).
Proof.
  intros s. unfold process_normal_commands.
  destruct (parse_duration cmd0) as [cmd d].
  assert (Hp : keeps_door (assign (set_lock_state 2) ;; send_status t))
    by auto with door.
  assert (Hz : keeps_door (assign (set_lock_state 0) ;; send_status t))
    by auto with door.
  assert (Hk : keeps_door (cond rte_count_enabled (assign (set_rte_count 0)) skip ;;
                           send_status t))
    by auto 10 with door.
  pose proof (keeps_door_unlock_door t t' d) as Hu.
  pose proof (keeps_door_send_status t) as Hs.
  repeat match goal with
         | |- context [if ?c then _ else _] => destruct c
         end;
    first [ apply Hp | apply Hz | apply Hk | apply Hu | apply Hs | reflexivity ].
Qed.

Lemma keeps_door_refresh : keeps_door refresh_config.
Proof. unfold refresh_config. auto 10 with door. Qed.

Lemma keeps_door_handle_command (t t' : Q) (command : string) :
  keeps_door (handle_command t t' command).
Proof.
  unfold handle_command.
  apply keeps_door_seq; [ apply keeps_door_refresh | ].
  apply keeps_door_cond; [ | apply keeps_door_process ].
  destruct (upper (strip command) =? "STATUS")%string; auto 10 with door.
Qed.

Lemma keeps_door_iteration (incoming : option string) (k : LoopClock) (last : Q) :
  keeps_door (fun s => fst (emulation_iteration incoming k last s)).
Proof.
  intros s. unfold emulation_iteration.
  set (r1 := match incoming with
             | Some raw =>
                 if ser s then
                   if (strip raw =? "")%string then (s, [])
                   else handle_command (c_cmd k) (c_cmd' k) (strip raw) s
                 else (s, [])
             | None => (s, [])
             end).
  assert (H1 : door_state (fst r1) = door_state s).
  { subst r1. destruct incoming as [raw | ]; [ | reflexivity ].
    destruct (ser s); [ | reflexivity ].
    destruct (strip raw =? "")%string; [ reflexivity | ].
    apply keeps_door_handle_command. }
  destruct r1 as [s1 o1]. simpl in H1.
  pose proof (keeps_door_override_timer (c_ovr k) (c_ovr' k) s1) as H2.
  destruct (handle_rte_override_timer (c_ovr k) (c_ovr' k) s1) as [s2 o2].
  simpl in H2.
  assert (H3 : door_state
                 (fst (if negb (rte_override_active s2)
                       then handle_unlock_timer (c_unl k) (c_unl' k) s2
                       else (s2, []))) = door_state s2).
  { destruct (negb (rte_override_active s2)); [ | reflexivity ].
    apply keeps_door_unlock_timer. }
  destruct (if negb (rte_override_active s2)
            then handle_unlock_timer (c_unl k) (c_unl' k) s2
            else (s2, [])) as [s3 o3].
  simpl in H3.
  destruct (dfacs_selected s3 && Qle_bool 1 (c_beat k - last)).
  - pose proof (send_status_state (c_beat' k) s3) as H4.
    destruct (send_status (c_beat' k) s3) as [s4 o4]. simpl in *. congruence.
  - simpl. congruence.
Qed.

Lemma toggle_door_keeps_count (t : Q) (s : App) :
  rte_count (fst (toggle_door_state t s)) = rte_count s.
Proof.
  unfold toggle_door_state, cond, seq, assign, skip.
  destruct (aux_is_door s); [ | reflexivity ].
  destruct (door_state s =? "CLOSED")%string.
  - pose proof (send_status_state t (set_door_state "OPEN" s)) as H.
    destruct (send_status t (set_door_state "OPEN" s)). simpl in *.
    subst. now destruct s.
  - pose proof (send_status_state t (set_door_state "CLOSED" s)) as H.
    destruct (send_status t (set_door_state "CLOSED" s)). simpl in *.
    subst. now destruct s.
Qed.

(** No operation touches both the door state and the RTE counter. *)
Lemma step_keeps_door_or_count (e : Event) (s : App) :
  door_state (fst (step e s)) = door_state s
  \/ rte_count (fst (step e s)) = rte_count s.
Proof.
  destruct e; simpl;
    try (right; apply toggle_door_keeps_count);
    left.
  - destruct opened; [ | reflexivity ].
    assert (H : keeps_door (assign (set_ser true) ;; assign (set_running true)))
      by auto with door.
    apply H.
  - assert (H : keeps_door disconnect_serial)
      by (unfold disconnect_serial; auto with door).
    apply H.
  - destruct (running s); [ | reflexivity ].
    apply (keeps_door_iteration incoming k last_status_time).
  - assert (H : keeps_door (trigger_rte t t'))
      by (unfold trigger_rte; auto 10 with door).
    apply H.
  - assert (H : keeps_door (toggle_lock_state t))
      by (unfold toggle_lock_state; auto 10 with door).
    apply H.
  - unfold manual_unlock. destruct (py_int (unlock_duration_var s)).
    + apply keeps_door_unlock_door.
    + reflexivity.
  - now destruct s.
  - now destruct s.
  - now destruct s.
  - now destruct s.
  - now destruct s.
Qed.

Lemma run_reachable (es : list Event) (s : App) :
  reachable s -> reachable (run es s).
Proof.
  revert s. induction es as [ | e es IH]; intros s Hs; simpl; [ exact Hs | ].
  apply IH. now apply reach_step.
Qed.

Lemma door_open_after_rte_reachable : reachable door_open_after_rte.
Proof. apply run_reachable. apply reach_init. Qed.

Lemma not_defaults_after_step (e : Event) :
  owned (fst (step e door_open_after_rte)) <> construction_defaults.
Proof.
  intros H.
  destruct (step_keeps_door_or_count e door_open_after_rte) as [Hd | Hc].
  - assert (Hx : door_state (fst (step e door_open_after_rte)) = "CLOSED")
      by exact (f_equal o_door_state H).
    rewrite Hd in Hx. discriminate Hx.
  - assert (Hx : rte_count (fst (step e door_open_after_rte)) = 0)
      by exact (f_equal o_rte_count H).
    rewrite Hc in Hx. discriminate Hx.
Qed.

(** C9, as stated, fails: no operation of the controller brings every
    reachable state back to the construction defaults. *)
Lemma no_reset_operation :
  ~ exists e : Event,
      forall s, reachable s -> owned (fst (step e s)) = construction_defaults.
Proof.
  intros [e He].
  exact (not_defaults_after_step e
           (He door_open_after_rte door_open_after_rte_reachable)).
Qed.

(** C9, as the code has it.  The construction defaults are what
    [__init__] sets, whatever the settings file holds; on a live
    controller every operation leaves the door state or the RTE counter
    as it was, and for every operation there is a reachable state that it
    does not bring back to the defaults. *)
Theorem defaults_set_at_construction_only :
  (forall st, owned (init st) = construction_defaults)
  /\ (forall e s,
        door_state (fst (step e s)) = door_state s
        \/ rte_count (fst (step e s)) = rte_count s)
  /\ (forall e, exists s,
        reachable s /\ owned (fst (step e s)) <> construction_defaults).
Proof.
  split; [ intros st; reflexivity | split ].
  - exact step_keeps_door_or_count.
  - intros e. exists door_open_after_rte.
    split; [ exact door_open_after_rte_reachable | ].
    exact (not_defaults_after_step e).
Qed.

(** ** Supporting facts and scenarios *)

Lemma no_space_str (n : Z) : no_space (str n) = true.
Proof.
  unfold str. destruct n as [ | p | p ]; simpl; [ reflexivity | | ].
  - unfold NilZero.string_of_uint.
    pose proof (no_space_numeral (Pos.to_uint p)) as H.
    destruct (Pos.to_uint p); [ reflexivity | .. ]; exact H.
  - unfold NilZero.string_of_uint.
    pose proof (no_space_numeral (Pos.to_uint p)) as H.
    destruct (Pos.to_uint p); [ reflexivity | .. ]; exact H.
Qed.

Lemma str_nonempty (n : Z) : str n <> "".
Proof.
  unfold str. destruct n as [ | p | p ];
    cbn [Z.to_int NilZero.string_of_int]; try discriminate.
  rewrite numeral_nonnil_text.
  pose proof (DecimalPos.Unsigned.to_uint_nonnil p) as Hnn.
  destruct (Pos.to_uint p); [ contradiction | .. ]; discriminate.
Qed.

Lemma strip_word_numeral (n : Z) : strip ("0 " ++ str n) = "0 " ++ str n.
Proof.
  unfold strip.
  change ("0 " ++ str n) with (String "0" (String " " (str n))).
  cbn [rstrip]. rewrite (rstrip_no_space _ (no_space_str n)).
  pose proof (str_nonempty n) as Hne.
  destruct (str n); [ contradiction | reflexivity ].
Qed.

(** A timed unlock with a numeral: from LOCKED, in each dialect, the line
    "0 <n>" opens the window for [n] seconds clamped to 1..3600. *)
Lemma timed_unlock_with_numeral (t t' : Q) (n : Z) (s : App) :
  (decimal_digits n <= int_max_str_digits)%nat ->
  known_dialect s ->
  rte_override_active s = false ->
  lock_state s = 0 ->
  let s' := fst (handle_command t t' ("0 " ++ str n) s) in
  lock_state s' = 1
  /\ unlock_duration s' = Z.max 1 (Z.min 3600 n) * 1000
  /\ unlock_start_time s' = (t * 1000)%Q.
Proof.
  intros Hn Hd Hact Hl s'. subst s'.
  destruct (handle_command_no_override t t' ("0 " ++ str n) s Hact)
    as (c & Hc & ->).
  destruct (refresh_config_spec s) as (c' & Hc' & Ho & _ & _ & Hbp & _).
  rewrite Hc in Hc'. injection Hc' as <-.
  rewrite strip_word_numeral.
  unfold process_normal_commands.
  change ("0 " ++ str n) with ("0" ++ " " ++ str n).
  rewrite (parse_duration_numeral "0" n eq_refl Hn).
  assert (Hlc : lock_state c = 0) by (rewrite <- Hl; exact (f_equal o_lock_state Ho)).
  assert (Hac : rte_override_active c = false)
    by (rewrite <- Hact; exact (f_equal o_override_active Ho)).
  assert (Hu : forall d,
             let u := fst (unlock_door t t' d c) in
             lock_state u = 1 /\ unlock_duration u = d * 1000
             /\ unlock_start_time u = (t * 1000)%Q).
  { intros d. unfold unlock_door, cond, seq, assign. rewrite Hac.
    match goal with
    | |- context [send_status t' ?x] =>
        pose proof (send_status_state t' x) as Hs;
        destruct (send_status t' x) as [a l]
    end.
    simpl in *. subst a. destruct c. repeat split. }
  rewrite Hbp, Hlc.
  destruct Hd as [-> | [-> | ->]]; simpl; apply Hu.
Qed.

(** The counter test of [activate_rte_override] reads the attribute
    [rte_count_enabled], which is the copy made by the last command
    handled: counting switched off in the panel takes effect on the
    trigger only after a command has been handled. *)
Example trigger_counts_with_last_handled_configuration :
  rte_count (run [EvSetRteCountEnabled false; EvTriggerRte 0 0]
               (init no_settings)) = 1
  /\ rte_count (run [EvConnect true; EvSetRteCountEnabled false;
                     EvIteration (Some "status") (at_instant 0) 0;
                     EvTriggerRte 1 1] (init no_settings)) = 0.
Proof. split; reflexivity. Qed.

(** Scenario A: PEAK, LOCKED, "0" unlocks for 5 s; the lock returns after
    5000 ms. *)
Example scenario_timed_unlock_expires :
  let s0 := fst (connect_serial true
                   (init (mkSettings (Some "PEAK") None None None))) in
  let s1 := fst (handle_command 100 100 "0" s0) in
  let s2 := fst (fst (emulation_iteration None (at_instant 104) 0 s1)) in
  let s3 := fst (fst (emulation_iteration None (at_instant 105) 0 s2)) in
  (lock_state s1, unlock_duration s1) = (1, 5000)
  /\ lock_state s2 = 1
  /\ lock_state s3 = 0.
Proof. repeat split. Qed.

(** Scenario B: DFACS, LOCKED, RTE trigger; "z" during the override is
    rejected; the override ends after 5000 ms. *)
Example scenario_override :
  let s0 := fst (connect_serial true (init no_settings)) in
  let r1 := trigger_rte 100 100 s0 in
  let r2 := handle_command 101 101 "z" (fst r1) in
  let r3 := handle_rte_override_timer 105 105 (fst r2) in
  snd r1 = ["STATUS,1,1,NA,5,RTE_ACTIVE" ++ LF;
            "RTE_OVERRIDE,ACTIVATED,5" ++ LF]
  /\ snd r2 = [REJECTED]
  /\ owned (fst r2) = owned (fst r1)
  /\ snd r3 = ["STATUS,0,1,NA,0,NORMAL" ++ LF;
               "RTE_OVERRIDE,DEACTIVATED" ++ LF]
  /\ lock_state (fst r3) = 0.
Proof. repeat split. Qed.

(** Scenario C: in ABC the phrase changes nothing and "0 10" unlocks for
    10 s. *)
Example scenario_abc :
  let s0 := fst (connect_serial true
                   (init (mkSettings (Some "ABC") None None None))) in
  let s1 := fst (handle_command 1 1 "open sesame!" s0) in
  let s2 := fst (handle_command 2 2 "0 10" s1) in
  owned s1 = owned s0
  /\ (lock_state s2, unlock_duration s2) = (1, 10000).
Proof. repeat split. Qed.

(** * Further properties of the controller *)

(** ** Results of the override actions *)

Lemma seq_assign (f : App -> App) (a : Act) (s : App) :
  (assign f ;; a) s = a (f s).
Proof. unfold seq, assign. destruct (a (f s)); reflexivity. Qed.

Lemma send_status_result (t : Q) (s : App) :
  send_status t s
  = (s, if ser s && dfacs_selected s then [(status_text t s ++ LF)%string] else []).
Proof.
  rewrite (surjective_pairing (send_status t s)).
  now rewrite send_status_state, send_status_output.
Qed.

Lemma seq_send_status (t : Q) (a : Act) (s : App) :
  (send_status t ;; a) s
  = (fst (a s),
     ((if ser s && dfacs_selected s then [(status_text t s ++ LF)%string] else [])
      ++ snd (a s))%list).
Proof.
  unfold seq. rewrite send_status_result. destruct (a s); reflexivity.
Qed.

Lemma activate_rte_override_result (t t' : Q) (s : App) :
  activate_rte_override t t' s
  = (activated t s,
     ((if ser s && dfacs_selected s
       then [(status_text t' (activated t s) ++ LF)%string] else [])
      ++ (if dfacs_selected s && ser s
          then [("RTE_OVERRIDE,ACTIVATED,5" ++ LF)%string] else []))%list).
Proof.
  unfold activate_rte_override. rewrite !seq_assign.
  set (s6 := set_unlock_duration _ _).
  assert (Hc : (cond rte_count_enabled
                  (assign (fun x => set_rte_count (rte_count x + 1) x)) skip) s6
               = (activated t s, [])).
  { subst s6. unfold cond, assign, skip, activated.
    destruct s as [rn sr ls rc ds ust ud oa ost od lr bp at_ ano rce bpv atv anov rcev udv].
    destruct rce; reflexivity. }
  unfold seq at 1. rewrite Hc.
  rewrite seq_send_status. unfold cond, skip, ser_write.
  assert (Hser : ser (activated t s) = ser s) by (destruct s; reflexivity).
  assert (Hd : dfacs_selected (activated t s) = dfacs_selected s)
    by (destruct s; reflexivity).
  assert (Hdur : rte_override_duration (activated t s) = 5000)
    by (destruct s; reflexivity).
  rewrite Hser, Hd, Hdur.
  destruct (dfacs_selected s && ser s); reflexivity.
Qed.

Lemma deactivate_rte_override_result (t' : Q) (s : App) :
  deactivate_rte_override t' s
  = (deactivated s,
     ((if ser s && dfacs_selected s
       then [(status_text t' (deactivated s) ++ LF)%string] else [])
      ++ (if dfacs_selected s && ser s
          then [("RTE_OVERRIDE,DEACTIVATED" ++ LF)%string] else []))%list).
Proof.
  unfold deactivate_rte_override. rewrite !seq_assign.
  fold (deactivated s).
  rewrite seq_send_status. unfold cond, skip, ser_write.
  assert (Hser : ser (deactivated s) = ser s) by (destruct s; reflexivity).
  assert (Hd : dfacs_selected (deactivated s) = dfacs_selected s)
    by (destruct s; reflexivity).
  rewrite Hser, Hd.
  destruct (dfacs_selected s && ser s); reflexivity.
Qed.

Lemma emulation_iteration_parts (incoming : option string) (k : LoopClock)
    (last : Q) (s : App) :
  let r1 := intake incoming k s in
  let r2 := handle_rte_override_timer (c_ovr k) (c_ovr' k) (fst r1) in
  let r3 := if negb (rte_override_active (fst r2))
            then handle_unlock_timer (c_unl k) (c_unl' k) (fst r2)
            else (fst r2, []) in
  emulation_iteration incoming k last s
  = if dfacs_selected (fst r3) && Qle_bool 1 (c_beat k - last)
    then ((fst r3,
           (snd r1 ++ snd r2 ++ snd r3
            ++ snd (send_status (c_beat' k) (fst r3)))%list), c_beat k)
    else ((fst r3, (snd r1 ++ snd r2 ++ snd r3)%list), last).
Proof.
  intros r1 r2 r3. unfold emulation_iteration.
  fold (intake incoming k s). fold r1.
  destruct r1 as [s1 o1] eqn:E1. cbn [fst snd] in *.
  fold r2. destruct r2 as [s2 o2] eqn:E2. cbn [fst snd] in *.
  fold r3. destruct r3 as [s3 o3] eqn:E3. cbn [fst snd] in *.
  destruct (dfacs_selected s3 && Qle_bool 1 (c_beat k - last)); [ | reflexivity ].
  pose proof (send_status_state (c_beat' k) s3) as Hs.
  destruct (send_status (c_beat' k) s3) as [s4 o4]. simpl in Hs. subst s4.
  reflexivity.
Qed.

(** ** The command parser *)

Lemma parse_duration_bounds (cmd : string) :
  1 <= snd (parse_duration cmd) <= 3600
  /\ contains_space (fst (parse_duration cmd)) = false.
Proof.
  unfold parse_duration.
  destruct (contains_space cmd) eqn:Hsp.
  - destruct (contains_space_split cmd Hsp) as (c & tok & _ & Hc & ->).
    cbn [fst snd]. split; [ | exact Hc ].
    destruct (py_int tok); lia.
  - cbn [fst snd]. split; [ lia | exact Hsp ].
Qed.

(** X1. Whatever the line, the duration the parser hands on is between 1
    and 3600 seconds and the command word it hands on has no space. *)
Theorem parsed_duration_in_range (cmd : string) :
  1 <= snd (parse_duration cmd) <= 3600
  /\ contains_space (fst (parse_duration cmd)) = false.
Proof. exact (parse_duration_bounds cmd). Qed.

Lemma command_word_never_phrase (cmd : string) :
  lower (fst (parse_duration cmd)) <> "open sesame!".
Proof.
  intros H.
  destruct (parse_duration_bounds cmd) as [_ Hns].
  rewrite <- contains_space_lower, H in Hns. discriminate Hns.
Qed.

(** X2. The comparison with "open sesame!" in the PEAK and DFACS branches
    can succeed for no input at all: the command word that reaches it
    never contains a space. *)
Theorem phrase_comparison_never_succeeds (cmd0 : string) :
  (lower (fst (parse_duration cmd0)) =? "open sesame!")%string = false.
Proof.
  apply String.eqb_neq. apply command_word_never_phrase.
Qed.

Lemma lstrip_idempotent (s : string) : lstrip (lstrip s) = lstrip s.
Proof.
  induction s as [ | c r IH]; cbn [lstrip]; [ reflexivity | ].
  destruct (is_space c) eqn:E; [ exact IH | ].
  cbn [lstrip]. now rewrite E.
Qed.

Lemma rstrip_idempotent (s : string) : rstrip (rstrip s) = rstrip s.
Proof.
  induction s as [ | c r IH]; cbn [rstrip]; [ reflexivity | ].
  destruct (rstrip r) as [ | a x] eqn:E.
  - destruct (is_space c) eqn:Ec; cbn [rstrip]; [ reflexivity | ].
    now rewrite Ec.
  - cbn [rstrip]. cbn [rstrip] in IH. rewrite IH. reflexivity.
Qed.

Lemma rstrip_lstrip (s : string) : rstrip s = s -> rstrip (lstrip s) = lstrip s.
Proof.
  induction s as [ | c r IH]; [ reflexivity | ].
  intros H. cbn [lstrip].
  destruct (is_space c) eqn:Ec; [ | exact H ].
  apply IH. cbn [rstrip] in H.
  destruct (rstrip r) as [ | a x] eqn:E.
  - rewrite Ec in H. discriminate H.
  - injection H as H. exact H.
Qed.

Lemma strip_idempotent (s : string) : strip (strip s) = strip s.
Proof.
  unfold strip.
  rewrite (rstrip_lstrip (rstrip s) (rstrip_idempotent s)).
  apply lstrip_idempotent.
Qed.

(** X3. White space around a line does not matter to [handle_command]:
    the line stripped by the emulation loop is handled like the raw one. *)
Theorem handle_command_ignores_outer_space (t t' : Q) (line : string) (s : App) :
  handle_command t t' (strip line) s = handle_command t t' line s.
Proof.
  unfold handle_command. now rewrite strip_idempotent.
Qed.

(** ** Commands without effect *)

Lemma process_unrecognized (t t' : Q) (cmd0 : string) (s : App) :
  fst (parse_duration cmd0) <> "0" ->
  lower (fst (parse_duration cmd0)) <> "a" ->
  lower (fst (parse_duration cmd0)) <> "z" ->
  lower (fst (parse_duration cmd0)) <> "ack" ->
  lower (fst (parse_duration cmd0)) <> "status" ->
  process_normal_commands t t' cmd0 s = (s, []).
Proof.
  intros H0 Ha Hz Hk Hs.
  pose proof (command_word_never_phrase cmd0) as Hp.
  unfold process_normal_commands.
  destruct (parse_duration cmd0) as [cmd d]. cbn [fst] in *.
  apply String.eqb_neq in H0, Ha, Hz, Hk, Hs, Hp.
  rewrite H0, Ha, Hz, Hk, Hs, Hp. cbn [orb andb]. unfold skip.
  destruct (billing_partner s =? "ABC")%string; [ reflexivity | ].
  destruct (billing_partner s =? "PEAK")%string; [ reflexivity | ].
  destruct (billing_partner s =? "DFACS")%string; reflexivity.
Qed.

Lemma handle_command_as_process (t t' : Q) (line : string) (s : App) :
  rte_override_active s = false ->
  handle_command t t' line s
  = process_normal_commands t t' (strip line) (fst (refresh_config s)).
Proof.
  intros Hact.
  destruct (handle_command_no_override t t' line s Hact) as (c & Hc & ->).
  now rewrite Hc.
Qed.

Lemma refresh_config_pair (s : App) :
  refresh_config s = (fst (refresh_config s), []).
Proof.
  destruct (refresh_config_spec s) as (c & Hc & _). now rewrite Hc.
Qed.

(** X4. With no override active, a line whose command word is none of
    "0", "a", "z", "ack", "status" (letters in either case) does nothing
    but refresh the configuration, in every dialect; nothing is written. *)
Theorem unrecognized_command_is_ignored (t t' : Q) (line : string) (s : App) :
  rte_override_active s = false ->
  command_word line <> "0" ->
  lower (command_word line) <> "a" ->
  lower (command_word line) <> "z" ->
  lower (command_word line) <> "ack" ->
  lower (command_word line) <> "status" ->
  handle_command t t' line s = refresh_config s.
Proof.
  intros Hact H0 Ha Hz Hk Hs.
  rewrite (handle_command_as_process t t' line s Hact).
  rewrite (process_unrecognized t t' (strip line) _ H0 Ha Hz Hk Hs).
  symmetry. apply refresh_config_pair.
Qed.

Lemma unrecognized_command_is_ignored_witness :
  let s := fst (connect_serial true (init no_settings)) in
  handle_command 1 1 "unlock 10" s = refresh_config s.
Proof.
  intros s.
  apply (unrecognized_command_is_ignored 1 1 "unlock 10" s);
    [ reflexivity | discriminate .. ].
Defined.

(** X5. With no override active and the lock not LOCKED, the timed
    unlock "0" and the permanent unlock "a" do nothing but refresh the
    configuration: a running unlock window is neither restarted nor
    extended, in every dialect. *)
Theorem unlock_commands_need_locked (t t' : Q) (line : string) (s : App) :
  rte_override_active s = false ->
  lock_state s <> 0 ->
  command_word line = "0" \/ lower (command_word line) = "a" ->
  handle_command t t' line s = refresh_config s.
Proof.
  intros Hact Hl Hw.
  rewrite (handle_command_as_process t t' line s Hact).
  rewrite (refresh_config_pair s) at 2.
  destruct (refresh_config_spec s) as (c & Hc & Ho & _).
  rewrite Hc. cbn [fst].
  assert (Hlc : (lock_state c =? 0) = false).
  { apply Z.eqb_neq. intros H. apply Hl. rewrite <- H.
    symmetry. exact (f_equal o_lock_state Ho). }
  pose proof (command_word_never_phrase (strip line)) as Hp.
  apply String.eqb_neq in Hp.
  unfold command_word in Hw. unfold process_normal_commands.
  destruct (parse_duration (strip line)) as [cmd d]. cbn [fst] in *.
  rewrite Hlc, Hp, !andb_false_r. unfold skip.
  destruct Hw as [-> | Hw].
  - cbn. repeat break_if; reflexivity.
  - rewrite Hw. cbn. repeat break_if; reflexivity.
Qed.

Lemma unlock_commands_need_locked_witness :
  let s := fst (handle_command 1 1 "0 60"
                  (fst (connect_serial true (init no_settings)))) in
  lock_state s = 1
  /\ handle_command 2 2 "0 600" s = refresh_config s.
Proof.
  intros s. split; [ reflexivity | ].
  apply (unlock_commands_need_locked 2 2 "0 600" s);
    [ reflexivity | discriminate | left; reflexivity ].
Defined.

(** X6. The commands "ack" and "status" belong to DFACS alone: with any
    other billing partner selected and no override active they do
    nothing but refresh the configuration; in particular "ack" does not
    reset the RTE counter. *)
Theorem ack_and_status_are_dfacs_only (t t' : Q) (line : string) (s : App) :
  rte_override_active s = false ->
  dialect s <> "DFACS" ->
  lower (command_word line) = "ack" \/ lower (command_word line) = "status" ->
  handle_command t t' line s = refresh_config s.
Proof.
  intros Hact Hd Hw.
  rewrite (handle_command_as_process t t' line s Hact).
  rewrite (refresh_config_pair s) at 2.
  destruct (refresh_config_spec s) as (c & Hc & _ & _ & _ & Hbp & _).
  rewrite Hc. cbn [fst].
  assert (Hnd : (billing_partner c =? "DFACS")%string = false).
  { apply String.eqb_neq. now rewrite Hbp. }
  unfold command_word in Hw. unfold process_normal_commands.
  destruct (parse_duration (strip line)) as [cmd d]. cbn [fst] in *.
  assert (H0 : (cmd =? "0")%string = false).
  { apply String.eqb_neq. intros ->. destruct Hw as [Hw | Hw]; discriminate Hw. }
  rewrite Hnd, H0. unfold skip.
  destruct Hw as [Hw | Hw]; rewrite Hw; cbn; repeat break_if; reflexivity.
Qed.

Lemma ack_and_status_are_dfacs_only_witness :
  let s := fst (handle_rte_override_timer 6 6
                  (fst (trigger_rte 0 0
                          (fst (connect_serial true
                                  (init (mkSettings (Some "PEAK") None None None))))))) in
  rte_count s = 1
  /\ handle_command 7 7 "ack" s = refresh_config s.
Proof.
  intros s. split; [ reflexivity | ].
  apply (ack_and_status_are_dfacs_only 7 7 "ack" s);
    [ reflexivity | discriminate | left; reflexivity ].
Defined.

(** ** Properties kept by the actions *)

Lemma keeps_skip (P : App -> Prop) : keeps P skip.
Proof. intros s H. exact H. Qed.

Lemma keeps_write (P : App -> Prop) (data : string) : keeps P (ser_write data).
Proof. intros s H. exact H. Qed.

Lemma keeps_seq (P : App -> Prop) (a b : Act) :
  keeps P a -> keeps P b -> keeps P (a ;; b).
Proof.
  intros Ha Hb s H. unfold seq.
  specialize (Ha s H). destruct (a s) as [s1 o1].
  specialize (Hb s1 Ha). destruct (b s1) as [s2 o2]. exact Hb.
Qed.

Lemma keeps_cond (P : App -> Prop) (c : App -> bool) (a b : Act) :
  keeps P a -> keeps P b -> keeps P (cond c a b).
Proof.
  intros Ha Hb s H. unfold cond. destruct (c s); [ apply Ha | apply Hb ]; exact H.
Qed.

Lemma keeps_assign (P : App -> Prop) (f : App -> App) :
  (forall s, P s -> P (f s)) -> keeps P (assign f).
Proof. intros Hf s H. apply Hf, H. Qed.

Lemma keeps_send_status (P : App -> Prop) (t : Q) : keeps P (send_status t).
Proof. intros s H. now rewrite send_status_state. Qed.

(** Every part of a loop iteration keeps [P], so the iteration does; the
    unlock timer only has to keep it while no override is active. *)
Lemma keeps_iteration (P : App -> Prop) (incoming : option string)
    (k : LoopClock) (last : Q) :
  (forall t t' line, keeps P (handle_command t t' line)) ->
  (forall t t', keeps P (handle_rte_override_timer t t')) ->
  (forall t t' s, rte_override_active s = false -> P s ->
                  P (fst (handle_unlock_timer t t' s))) ->
  keeps P (fun s => fst (emulation_iteration incoming k last s)).
Proof.
  intros Hc Ho Hu s H.
  rewrite emulation_iteration_parts. cbv zeta.
  assert (H1 : P (fst (intake incoming k s))).
  { unfold intake. destruct incoming as [raw | ]; [ | exact H ].
    destruct (ser s); [ | exact H ].
    destruct (strip raw =? "")%string; [ exact H | ].
    apply Hc, H. }
  set (s1 := fst (intake incoming k s)) in *.
  pose proof (Ho (c_ovr k) (c_ovr' k) s1 H1) as H2.
  set (s2 := fst (handle_rte_override_timer (c_ovr k) (c_ovr' k) s1)) in *.
  assert (H3 : P (fst (if negb (rte_override_active s2)
                       then handle_unlock_timer (c_unl k) (c_unl' k) s2
                       else (s2, [])))).
  { destruct (rte_override_active s2) eqn:E; cbn [negb]; [ exact H2 | ].
    apply Hu; assumption. }
  destruct (dfacs_selected _ && Qle_bool 1 (c_beat k - last)); exact H3.
Qed.

(** A property kept by every operation when the pieces keep it. *)
Lemma keeps_step (P : App -> Prop) :
  (forall f, In f [set_ser true; set_running true; set_running false; set_ser false] ->
             forall s, P s -> P (f s)) ->
  (forall v s, P s -> P (set_billing_partner_var v s)) ->
  (forall v s, P s -> P (set_aux_type_var v s)) ->
  (forall v s, P s -> P (set_aux_normally_open_var v s)) ->
  (forall v s, P s -> P (set_rte_count_enabled_var v s)) ->
  (forall v s, P s -> P (set_unlock_duration_var v s)) ->
  (forall t t' line, keeps P (handle_command t t' line)) ->
  (forall t t', keeps P (handle_rte_override_timer t t')) ->
  (forall t t' s, rte_override_active s = false -> P s ->
                  P (fst (handle_unlock_timer t t' s))) ->
  (forall t t', keeps P (trigger_rte t t')) ->
  (forall t, keeps P (toggle_door_state t)) ->
  (forall t, keeps P (toggle_lock_state t)) ->
  (forall t t', keeps P (manual_unlock t t')) ->
  forall e, keeps P (step e).
Proof.
  intros Hio Hb Ha Hn Hr Hu Hcmd Hovr Hunl Htr Htd Htl Hmu e.
  destruct e; cbn [step].
  - unfold connect_serial. destruct opened; [ | apply keeps_skip ].
    apply keeps_seq; apply keeps_assign; apply Hio; cbn; auto.
  - unfold disconnect_serial.
    apply keeps_seq; apply keeps_assign; apply Hio; cbn; auto.
  - intros s H. destruct (running s); [ | exact H ].
    exact (keeps_iteration P incoming k last_status_time Hcmd Hovr Hunl s H).
  - apply Htr.
  - apply Htd.
  - apply Htl.
  - apply Hmu.
  - apply keeps_assign, Hb.
  - apply keeps_assign, Ha.
  - apply keeps_assign, Hn.
  - apply keeps_assign, Hr.
  - apply keeps_assign, Hu.
Qed.

(** ** The values of the attributes *)

(** Reduction of the attribute reads on an object given field by field. *)
Ltac fields :=
  cbv [set_running set_ser set_lock_state set_rte_count set_door_state
       set_unlock_start_time set_unlock_duration set_rte_override_active
       set_rte_override_start_time set_rte_override_duration
       set_billing_partner set_aux_type set_aux_normally_open
       set_rte_count_enabled set_billing_partner_var set_aux_type_var
       set_aux_normally_open_var set_rte_count_enabled_var
       set_unlock_duration_var activated deactivated running ser
       lock_state rte_count door_state unlock_start_time unlock_duration
       rte_override_active rte_override_start_time rte_override_duration
       last_rte_state billing_partner aux_type aux_normally_open
       rte_count_enabled billing_partner_var aux_type_var
       aux_normally_open_var rte_count_enabled_var unlock_duration_var] in *.

Ltac wf_field :=
  let H := fresh "H" in
  intros [] H; unfold well_formed in *; fields;
  intuition (try lia; try discriminate; auto).

Ltac wf_assign := solve [ apply keeps_assign; wf_field ].

Lemma wf_unlock_door (t t' : Q) (d : Z) :
  1 <= d <= 3600 -> keeps well_formed (unlock_door t t' d).
Proof.
  intros Hd. unfold unlock_door.
  apply keeps_cond.
  - apply keeps_cond; [ apply keeps_write | apply keeps_skip ].
  - repeat apply keeps_seq;
      first [ apply keeps_send_status | wf_assign ].
Qed.

Lemma wf_activated (t : Q) (s : App) : well_formed s -> well_formed (activated t s).
Proof.
  destruct s as [rn sr ls rc ds ust ud oa ost od lr bp at_ ano rce bpv atv anov rcev udv].
  unfold well_formed. fields.
  intros H. destruct rce; intuition (try lia; auto).
Qed.

Lemma wf_deactivated (s : App) : well_formed s -> well_formed (deactivated s).
Proof.
  destruct s. unfold well_formed. fields.
  intros H. intuition (try lia; try discriminate; auto).
Qed.

Lemma wf_override_timer (t t' : Q) : keeps well_formed (handle_rte_override_timer t t').
Proof.
  intros s H. unfold handle_rte_override_timer, cond, skip.
  destruct (rte_override_active s); [ | exact H ].
  cbv zeta. break_if; [ | exact H ].
  rewrite deactivate_rte_override_result. now apply wf_deactivated.
Qed.

Lemma wf_unlock_timer (t t' : Q) : keeps well_formed (handle_unlock_timer t t').
Proof.
  intros s H. unfold handle_unlock_timer, cond, skip.
  destruct (lock_state s =? 1); [ | exact H ].
  cbv zeta. break_if; [ | exact H ].
  assert (Hk : keeps well_formed (assign (set_lock_state 0) ;;
                                  assign (set_unlock_duration 5000) ;;
                                  send_status t')).
  { repeat apply keeps_seq;
      first [ apply keeps_send_status | wf_assign ]. }
  now apply Hk.
Qed.

Lemma wf_process (t t' : Q) (cmd0 : string) :
  keeps well_formed (process_normal_commands t t' cmd0).
Proof.
  intros s H. unfold process_normal_commands.
  pose proof (parse_duration_bounds cmd0) as [Hd _].
  destruct (parse_duration cmd0) as [cmd d]. cbn [snd] in Hd.
  assert (Hp : keeps well_formed (assign (set_lock_state 2) ;; send_status t)).
  { apply keeps_seq; [ wf_assign | apply keeps_send_status ]. }
  assert (Hz : keeps well_formed (assign (set_lock_state 0) ;; send_status t)).
  { apply keeps_seq; [ wf_assign | apply keeps_send_status ]. }
  assert (Hk : keeps well_formed
                 (cond rte_count_enabled (assign (set_rte_count 0)) skip ;;
                  send_status t)).
  { apply keeps_seq; [ | apply keeps_send_status ].
    apply keeps_cond; [ wf_assign | apply keeps_skip ]. }
  pose proof (wf_unlock_door t t' d Hd) as Hu.
  pose proof (keeps_send_status well_formed t) as Hs.
  repeat match goal with
         | |- context [if ?c then _ else _] => destruct c
         end;
    first [ now apply Hp | now apply Hz | now apply Hk | now apply Hu
          | now apply Hs | exact H ].
Qed.

Lemma wf_refresh : keeps well_formed refresh_config.
Proof. unfold refresh_config. repeat apply keeps_seq; wf_assign. Qed.

Lemma wf_handle_command (t t' : Q) (line : string) :
  keeps well_formed (handle_command t t' line).
Proof.
  unfold handle_command.
  apply keeps_seq; [ apply wf_refresh | ].
  apply keeps_cond; [ | apply wf_process ].
  destruct (upper (strip line) =? "STATUS")%string.
  - apply keeps_send_status.
  - repeat apply keeps_cond; first [ apply keeps_write | apply keeps_skip ].
Qed.

Lemma wf_trigger (t t' : Q) : keeps well_formed (trigger_rte t t').
Proof.
  intros s H. unfold trigger_rte, cond, skip.
  destruct (aux_is_rte s); [ | exact H ].
  destruct (lock_state s =? 0); [ | exact H ].
  rewrite activate_rte_override_result. now apply wf_activated.
Qed.

Lemma wf_toggle_door (t : Q) : keeps well_formed (toggle_door_state t).
Proof.
  unfold toggle_door_state.
  apply keeps_cond; [ | apply keeps_skip ].
  apply keeps_seq; [ | apply keeps_send_status ].
  apply keeps_cond; wf_assign.
Qed.

Lemma wf_toggle_lock (t : Q) : keeps well_formed (toggle_lock_state t).
Proof.
  unfold toggle_lock_state.
  apply keeps_seq; [ | apply keeps_send_status ].
  apply keeps_cond; wf_assign.
Qed.

Lemma wf_manual_unlock (t t' : Q) : keeps well_formed (manual_unlock t t').
Proof.
  intros s H. unfold manual_unlock.
  destruct (py_int (unlock_duration_var s)) as [d | ]; [ | exact H ].
  apply wf_unlock_door; [ lia | exact H ].
Qed.

Lemma wf_step (e : Event) : keeps well_formed (step e).
Proof.
  apply keeps_step.
  - intros f Hf. cbn in Hf.
    destruct Hf as [<- | [<- | [<- | [<- | []]]]]; wf_field.
  - intros v. wf_field.
  - intros v. wf_field.
  - intros v. wf_field.
  - intros v. wf_field.
  - intros v. wf_field.
  - apply wf_handle_command.
  - apply wf_override_timer.
  - intros t t' s _. apply wf_unlock_timer.
  - apply wf_trigger.
  - apply wf_toggle_door.
  - apply wf_toggle_lock.
  - apply wf_manual_unlock.
Qed.

Lemma reachable_well_formed (s : App) : reachable s -> well_formed s.
Proof.
  induction 1 as [st | e s Hs IH].
  - unfold well_formed, init. fields.
    intuition (try lia; try discriminate; auto).
  - now apply wf_step.
Qed.

(** A reachable state used to illustrate the properties: a timed unlock
    of 60 s on a connected DFACS controller. *)
Lemma sample_reachable :
  reachable (run [EvConnect true;
                  EvIteration (Some "0 60") (at_instant 1) 0]
               (init no_settings)).
Proof. apply run_reachable, reach_init. Qed.

(** X7. In every reachable state the lock state is 0, 1 or 2, the door
    state is "OPEN" or "CLOSED", and the RTE counter is not negative. *)
Theorem reachable_state_values (s : App) :
  reachable s ->
  (lock_state s = 0 \/ lock_state s = 1 \/ lock_state s = 2)
  /\ (door_state s = "OPEN" \/ door_state s = "CLOSED")
  /\ 0 <= rte_count s.
Proof.
  intros H. destruct (reachable_well_formed s H) as (H1 & H2 & H3 & _).
  auto.
Qed.

Lemma reachable_state_values_witness :
  let s := run [EvConnect true;
                EvIteration (Some "0 60") (at_instant 1) 0]
             (init no_settings) in
  (lock_state s = 0 \/ lock_state s = 1 \/ lock_state s = 2)
  /\ (door_state s = "OPEN" \/ door_state s = "CLOSED")
  /\ 0 <= rte_count s.
Proof.
  intros s. apply (reachable_state_values s). exact sample_reachable.
Defined.

(** X8. In every reachable state the unlock window is between 1000 and
    3600000 ms (1 s to 1 h), and an active override has the fixed
    duration of 5000 ms. *)
Theorem reachable_durations (s : App) :
  reachable s ->
  1000 <= unlock_duration s <= 3600000
  /\ (rte_override_active s = true -> rte_override_duration s = 5000).
Proof.
  intros H. destruct (reachable_well_formed s H) as (_ & _ & _ & H4 & _ & H6).
  auto.
Qed.

Lemma reachable_durations_witness :
  let s := run [EvConnect true;
                EvIteration (Some "0 60") (at_instant 1) 0]
             (init no_settings) in
  1000 <= unlock_duration s <= 3600000
  /\ (rte_override_active s = true -> rte_override_duration s = 5000).
Proof.
  intros s. apply (reachable_durations s). exact sample_reachable.
Defined.

(** ** The RTE counter *)

Ltac field_assign :=
  let H := fresh "H" in
  solve [ apply keeps_assign; intros [] H; fields;
          first [ exact H | intuition (try lia; try discriminate; auto) ] ].

Ltac keeps_auto :=
  repeat first
    [ apply keeps_send_status | apply keeps_skip | apply keeps_write
    | apply keeps_seq | apply keeps_cond | field_assign ].

Lemma count_unlock_door (c : Z) (t t' : Q) (d : Z) :
  keeps (fun x => rte_count x = c) (unlock_door t t' d).
Proof. unfold unlock_door. keeps_auto. Qed.

Lemma count_override_timer (c : Z) (t t' : Q) :
  keeps (fun x => rte_count x = c) (handle_rte_override_timer t t').
Proof.
  intros s H. unfold handle_rte_override_timer, cond, skip.
  destruct (rte_override_active s); [ | exact H ].
  cbv zeta. break_if; [ | exact H ].
  rewrite deactivate_rte_override_result. cbn [fst].
  destruct s. exact H.
Qed.

Lemma count_unlock_timer (c : Z) (t t' : Q) :
  keeps (fun x => rte_count x = c) (handle_unlock_timer t t').
Proof.
  intros s H. unfold handle_unlock_timer, cond, skip.
  destruct (lock_state s =? 1); [ | exact H ].
  cbv zeta. break_if; [ | exact H ].
  assert (Hk : keeps (fun x => rte_count x = c)
                 (assign (set_lock_state 0) ;;
                  assign (set_unlock_duration 5000) ;; send_status t'))
    by keeps_auto.
  now apply Hk.
Qed.

Lemma count_process (t t' : Q) (cmd0 : string) (s : App) :
  rte_count (fst (process_normal_commands t t' cmd0 s)) = rte_count s
  \/ rte_count (fst (process_normal_commands t t' cmd0 s)) = 0.
Proof.
  unfold process_normal_commands.
  destruct (parse_duration cmd0) as [cmd d].
  assert (Hp : keeps (fun x => rte_count x = rte_count s)
                 (assign (set_lock_state 2) ;; send_status t)) by keeps_auto.
  assert (Hz : keeps (fun x => rte_count x = rte_count s)
                 (assign (set_lock_state 0) ;; send_status t)) by keeps_auto.
  pose proof (count_unlock_door (rte_count s) t t' d) as Hu.
  pose proof (keeps_send_status (fun x => rte_count x = rte_count s) t) as Hs.
  assert (Hk : rte_count (fst ((cond rte_count_enabled (assign (set_rte_count 0)) skip ;;
                                send_status t) s)) = rte_count s
               \/ rte_count (fst ((cond rte_count_enabled (assign (set_rte_count 0)) skip ;;
                                   send_status t) s)) = 0).
  { unfold seq, cond, assign, skip.
    destruct (rte_count_enabled s).
    - right. rewrite send_status_result. now destruct s.
    - left. now rewrite send_status_result. }
  repeat match goal with
         | |- context [if ?c then _ else _] => destruct c
         end;
    first [ exact Hk
          | left; first [ now apply Hp | now apply Hz | now apply Hu
                        | now apply Hs | reflexivity ] ].
Qed.

Lemma count_refresh (c : Z) : keeps (fun x => rte_count x = c) refresh_config.
Proof. unfold refresh_config. keeps_auto. Qed.

Lemma count_handle_command (t t' : Q) (line : string) (s : App) :
  rte_count (fst (handle_command t t' line s)) = rte_count s
  \/ rte_count (fst (handle_command t t' line s)) = 0.
Proof.
  pose proof (count_refresh (rte_count s) s eq_refl) as Hr.
  destruct (rte_override_active s) eqn:Hact.
  - left.
    destruct (handle_command_in_override t t' line s Hact) as (c & Hc & ->).
    rewrite Hc in Hr. cbn [fst] in Hr.
    destruct (upper (strip line) =? "STATUS")%string.
    + now rewrite send_status_state.
    + destruct ((dialect s =? "DFACS")%string && ser s); exact Hr.
  - rewrite (handle_command_as_process t t' line s Hact).
    rewrite <- Hr. apply count_process.
Qed.

Lemma count_iteration (incoming : option string) (k : LoopClock) (last : Q)
    (s : App) :
  rte_count (fst (fst (emulation_iteration incoming k last s))) = rte_count s
  \/ ((exists raw, incoming = Some raw)
      /\ rte_count (fst (fst (emulation_iteration incoming k last s))) = 0).
Proof.
  rewrite emulation_iteration_parts. cbv zeta.
  set (s1 := fst (intake incoming k s)).
  set (s2 := fst (handle_rte_override_timer (c_ovr k) (c_ovr' k) s1)).
  set (r3 := if negb (rte_override_active s2)
             then handle_unlock_timer (c_unl k) (c_unl' k) s2 else (s2, [])).
  assert (H2 : rte_count s2 = rte_count s1)
    by (apply (count_override_timer (rte_count s1)); reflexivity).
  assert (H3 : rte_count (fst r3) = rte_count s2).
  { subst r3. destruct (negb (rte_override_active s2)); [ | reflexivity ].
    apply (count_unlock_timer (rte_count s2)). reflexivity. }
  assert (H1 : rte_count s1 = rte_count s
               \/ ((exists raw, incoming = Some raw) /\ rte_count s1 = 0)).
  { subst s1. unfold intake. destruct incoming as [raw | ]; [ | now left ].
    destruct (ser s); [ | now left ].
    destruct (strip raw =? "")%string; [ now left | ].
    destruct (count_handle_command (c_cmd k) (c_cmd' k) (strip raw) s) as [H | H].
    - now left.
    - right. split; [ now exists raw | exact H ]. }
  assert (Hf : rte_count (fst (fst
                 (if dfacs_selected (fst r3) && Qle_bool 1 (c_beat k - last)
                  then ((fst r3,
                         (snd (intake incoming k s)
                          ++ snd (handle_rte_override_timer (c_ovr k) (c_ovr' k) s1)
                          ++ snd r3 ++ snd (send_status (c_beat' k) (fst r3)))%list),
                        c_beat k)
                  else ((fst r3,
                         (snd (intake incoming k s)
                          ++ snd (handle_rte_override_timer (c_ovr k) (c_ovr' k) s1)
                          ++ snd r3)%list), last)))) = rte_count s1).
  { destruct (dfacs_selected (fst r3) && Qle_bool 1 (c_beat k - last));
      cbn [fst]; congruence. }
  rewrite Hf. exact H1.
Qed.

(** X9. The RTE counter changes in two ways only: the trigger button adds
    exactly 1 (a counted activation), and a command received in a loop
    iteration may reset it to 0; every other operation leaves it alone. *)
Theorem counter_changes (e : Event) (s : App) :
  rte_count (fst (step e s)) = rte_count s
  \/ ((exists t t', e = EvTriggerRte t t')
      /\ rte_count (fst (step e s)) = rte_count s + 1)
  \/ ((exists raw k last, e = EvIteration (Some raw) k last)
      /\ rte_count (fst (step e s)) = 0).
Proof.
  destruct e; cbn [step].
  - left. destruct opened; [ | reflexivity ]. now destruct s.
  - left. now destruct s.
  - destruct (running s); [ | now left ].
    destruct (count_iteration incoming k last_status_time s) as [H | [[raw ->] H]].
    + now left.
    + right. right. split; [ now exists raw, k, last_status_time | exact H ].
  - unfold trigger_rte, cond, skip.
    destruct (aux_is_rte s); [ | now left ].
    destruct (lock_state s =? 0); [ | now left ].
    rewrite activate_rte_override_result. cbn [fst].
    assert (Hc : rte_count (activated t s)
                 = if rte_count_enabled s then rte_count s + 1 else rte_count s)
      by now destruct s.
    rewrite Hc. destruct (rte_count_enabled s); [ | now left ].
    right. left. split; [ now exists t, t' | reflexivity ].
  - left. apply toggle_door_keeps_count.
  - left.
    assert (H : keeps (fun x => rte_count x = rte_count s) (toggle_lock_state t))
      by (unfold toggle_lock_state; keeps_auto).
    now apply H.
  - left. unfold manual_unlock.
    destruct (py_int (unlock_duration_var s)); [ | reflexivity ].
    now apply (count_unlock_door (rte_count s)).
  - left. now destruct s.
  - left. now destruct s.
  - left. now destruct s.
  - left. now destruct s.
  - left. now destruct s.
Qed.

(** ** The override and the lock state *)

Lemma inactive_unlock_door (t t' : Q) (d : Z) :
  keeps (fun x => rte_override_active x = false) (unlock_door t t' d).
Proof. unfold unlock_door. keeps_auto. Qed.

Lemma inactive_process (t t' : Q) (cmd0 : string) :
  keeps (fun x => rte_override_active x = false)
    (process_normal_commands t t' cmd0).
Proof.
  intros s H. unfold process_normal_commands.
  destruct (parse_duration cmd0) as [cmd d].
  assert (Hp : keeps (fun x => rte_override_active x = false)
                 (assign (set_lock_state 2) ;; send_status t)) by keeps_auto.
  assert (Hz : keeps (fun x => rte_override_active x = false)
                 (assign (set_lock_state 0) ;; send_status t)) by keeps_auto.
  assert (Hk : keeps (fun x => rte_override_active x = false)
                 (cond rte_count_enabled (assign (set_rte_count 0)) skip ;;
                  send_status t)) by keeps_auto.
  pose proof (inactive_unlock_door t t' d) as Hu.
  pose proof (keeps_send_status (fun x => rte_override_active x = false) t) as Hs.
  repeat match goal with
         | |- context [if ?c then _ else _] => destruct c
         end;
    first [ now apply Hp | now apply Hz | now apply Hk | now apply Hu
          | now apply Hs | exact H ].
Qed.

Lemma holds_of_owned (s c : App) :
  owned c = owned s -> override_holds_unlock s -> override_holds_unlock c.
Proof.
  unfold override_holds_unlock. intros Ho H Hc.
  rewrite (f_equal o_lock_state Ho : lock_state c = lock_state s).
  apply H. rewrite <- Hc.
  symmetry. exact (f_equal o_override_active Ho).
Qed.

Lemma holds_of_inactive (s : App) :
  rte_override_active s = false -> override_holds_unlock s.
Proof. unfold override_holds_unlock. intros H H'. congruence. Qed.

Lemma holds_handle_command (t t' : Q) (line : string) :
  keeps override_holds_unlock (handle_command t t' line).
Proof.
  intros s H.
  destruct (rte_override_active s) eqn:Hact.
  - destruct (handle_command_in_override t t' line s Hact) as (c & Hc & ->).
    destruct (refresh_config_spec s) as (c' & Hc' & Ho & _).
    rewrite Hc in Hc'. injection Hc' as <-.
    assert (Hcc : override_holds_unlock c) by exact (holds_of_owned s c Ho H).
    destruct (upper (strip line) =? "STATUS")%string.
    + now rewrite send_status_state.
    + destruct ((dialect s =? "DFACS")%string && ser s); exact Hcc.
  - rewrite (handle_command_as_process t t' line s Hact).
    apply holds_of_inactive, inactive_process.
    destruct (refresh_config_spec s) as (c & Hc & Ho & _).
    rewrite Hc. cbn [fst]. rewrite <- Hact.
    exact (f_equal o_override_active Ho).
Qed.

Lemma holds_override_timer (t t' : Q) :
  keeps override_holds_unlock (handle_rte_override_timer t t').
Proof.
  intros s H. unfold handle_rte_override_timer, cond, skip.
  destruct (rte_override_active s); [ | exact H ].
  cbv zeta. break_if; [ | exact H ].
  rewrite deactivate_rte_override_result. cbn [fst].
  apply holds_of_inactive. now destruct s.
Qed.

Lemma inactive_unlock_timer (t t' : Q) :
  keeps (fun x => rte_override_active x = false) (handle_unlock_timer t t').
Proof.
  intros s H. unfold handle_unlock_timer, cond, skip.
  destruct (lock_state s =? 1); [ | exact H ].
  cbv zeta. break_if; [ | exact H ].
  assert (Hk : keeps (fun x => rte_override_active x = false)
                 (assign (set_lock_state 0) ;;
                  assign (set_unlock_duration 5000) ;; send_status t'))
    by keeps_auto.
  now apply Hk.
Qed.

Lemma holds_trigger (t t' : Q) : keeps override_holds_unlock (trigger_rte t t').
Proof.
  intros s H. unfold trigger_rte, cond, skip.
  destruct (aux_is_rte s); [ | exact H ].
  destruct (lock_state s =? 0); [ | exact H ].
  rewrite activate_rte_override_result. cbn [fst].
  intros _. now destruct s.
Qed.

Lemma holds_unlock_door (t t' : Q) (d : Z) :
  keeps override_holds_unlock (unlock_door t t' d).
Proof.
  intros s H. destruct (rte_override_active s) eqn:Hact.
  - unfold unlock_door, cond, skip, ser_write. rewrite Hact.
    destruct (dfacs_selected s && ser s); exact H.
  - apply holds_of_inactive. now apply inactive_unlock_door.
Qed.

(** X10. Every operation except the lock toggle button keeps this: while
    the override is active the lock state is 1 (temporarily unlocked). *)
Theorem override_holds_lock_unlocked (e : Event) (s : App) :
  (forall t, e <> EvToggleLock t) ->
  override_holds_unlock s ->
  override_holds_unlock (fst (step e s)).
Proof.
  intros Hne H. destruct e; cbn [step].
  - destruct opened; [ | exact H ]. destruct s. exact H.
  - destruct s. exact H.
  - destruct (running s); [ | exact H ].
    apply (keeps_iteration override_holds_unlock incoming k last_status_time);
      [ apply holds_handle_command | apply holds_override_timer | | exact H ].
    intros u u' x Hx _. apply holds_of_inactive.
    now apply inactive_unlock_timer.
  - now apply holds_trigger.
  - assert (Hk : keeps override_holds_unlock (toggle_door_state t)).
    { unfold toggle_door_state. keeps_auto. }
    now apply Hk.
  - exfalso. exact (Hne t eq_refl).
  - unfold manual_unlock.
    destruct (py_int (unlock_duration_var s)); [ | exact H ].
    now apply holds_unlock_door.
  - destruct s. exact H.
  - destruct s. exact H.
  - destruct s. exact H.
  - destruct s. exact H.
  - destruct s. exact H.
Qed.

Lemma override_holds_lock_unlocked_witness :
  let s := fst (trigger_rte 0 0 (fst (connect_serial true (init no_settings)))) in
  rte_override_active s = true
  /\ override_holds_unlock
       (fst (step (EvIteration (Some "z") (at_instant 1) 0) s)).
Proof.
  intros s. split; [ reflexivity | ].
  apply (override_holds_lock_unlocked (EvIteration (Some "z") (at_instant 1) 0) s).
  - intros t. discriminate.
  - intros _. reflexivity.
Defined.

(** X11. The lock toggle button is not blocked by the override: pressed
    while the override is active and the lock is temporarily unlocked, it
    sets the lock state to 0 and leaves the override active, with its
    window and the counter as they were. *)
Theorem toggle_lock_during_override (t : Q) (s : App) :
  rte_override_active s = true ->
  lock_state s = 1 ->
  let s' := fst (toggle_lock_state t s) in
  lock_state s' = 0
  /\ rte_override_active s' = true
  /\ rte_override_start_time s' = rte_override_start_time s
  /\ rte_override_duration s' = rte_override_duration s
  /\ rte_count s' = rte_count s.
Proof.
  intros Hact Hl. unfold toggle_lock_state.
  unfold seq, cond, assign. rewrite Hl. cbn [Z.eqb].
  rewrite send_status_result. cbn [fst].
  destruct s. cbn in *. auto.
Qed.

Lemma toggle_lock_during_override_witness :
  let s := fst (trigger_rte 0 0 (init no_settings)) in
  let s' := fst (toggle_lock_state 1 s) in
  lock_state s' = 0 /\ rte_override_active s' = true.
Proof.
  intros s s'.
  destruct (toggle_lock_during_override 1 s) as (H1 & H2 & _);
    [ reflexivity | reflexivity | ].
  split; assumption.
Defined.

(** ** What is written to the port *)

Lemma gate_of_gated (a : Act) (s : App) :
  gated a -> ser (fst (a s)) && dfacs_selected (fst (a s)) = ser s && dfacs_selected s.
Proof.
  intros H. destruct (H s) as (Hs & Hb & _).
  unfold dfacs_selected, dialect. now rewrite Hs, Hb.
Qed.

Lemma gated_skip : gated skip.
Proof. intros s. repeat split. Qed.

Lemma gated_assign (f : App -> App) :
  (forall s, ser (f s) = ser s) ->
  (forall s, billing_partner_var (f s) = billing_partner_var s) ->
  gated (assign f).
Proof. intros Hs Hb s. cbn. auto. Qed.

Lemma gated_seq (a b : Act) : gated a -> gated b -> gated (a ;; b).
Proof.
  intros Ha Hb s. unfold seq.
  pose proof (gate_of_gated a s Ha) as Hg.
  destruct (Ha s) as (Hs1 & Hb1 & Ho1).
  destruct (a s) as [s1 o1]. cbn [fst snd] in *.
  destruct (Hb s1) as (Hs2 & Hb2 & Ho2).
  destruct (b s1) as [s2 o2]. cbn [fst snd] in *.
  split; [ congruence | split; [ congruence | ] ].
  intros Hgate. rewrite (Ho1 Hgate), Ho2; [ reflexivity | congruence ].
Qed.

Lemma gated_cond (c : App -> bool) (a b : Act) :
  gated a -> gated b -> gated (cond c a b).
Proof.
  intros Ha Hb s. unfold cond. destruct (c s); [ apply Ha | apply Hb ].
Qed.

Lemma gated_send_status (t : Q) : gated (send_status t).
Proof.
  intros s. rewrite send_status_result. cbn [fst snd].
  split; [ reflexivity | split; [ reflexivity | ] ].
  intros ->. reflexivity.
Qed.

(** A write under the test "DFACS selected and port attached". *)
Lemma gated_guarded_write (g : App -> string) :
  gated (cond (fun s => dfacs_selected s && ser s) (fun s => (s, [g s])) skip).
Proof.
  intros s. unfold cond, skip.
  destruct (dfacs_selected s && ser s) eqn:E; cbn [fst snd];
    (split; [ reflexivity | split; [ reflexivity | ] ]);
    [ | reflexivity ].
  rewrite andb_comm, E. discriminate.
Qed.

Ltac gated_field :=
  solve [ apply gated_assign; intros []; reflexivity ].

Ltac gated_auto :=
  repeat first
    [ apply gated_send_status | apply gated_skip
    | apply (gated_guarded_write (fun _ => REJECTED))
    | apply gated_guarded_write
    | apply gated_seq | apply gated_cond | gated_field ].

Lemma gated_unlock_door (t t' : Q) (d : Z) : gated (unlock_door t t' d).
Proof. unfold unlock_door. gated_auto. Qed.

Lemma gated_activate (t t' : Q) : gated (activate_rte_override t t').
Proof.
  intros s. rewrite activate_rte_override_result. cbn [fst snd].
  split; [ now destruct s | split; [ now destruct s | ] ].
  intros E. rewrite E, andb_comm, E. reflexivity.
Qed.

Lemma gated_deactivate (t' : Q) : gated (deactivate_rte_override t').
Proof.
  intros s. rewrite deactivate_rte_override_result. cbn [fst snd].
  split; [ now destruct s | split; [ now destruct s | ] ].
  intros E. rewrite E, andb_comm, E. reflexivity.
Qed.

Lemma gated_override_timer (t t' : Q) : gated (handle_rte_override_timer t t').
Proof.
  unfold handle_rte_override_timer. apply gated_cond; [ | apply gated_skip ].
  intros s. cbv zeta. break_if; [ apply gated_deactivate | apply gated_skip ].
Qed.

Lemma gated_unlock_timer (t t' : Q) : gated (handle_unlock_timer t t').
Proof.
  unfold handle_unlock_timer. apply gated_cond; [ | apply gated_skip ].
  intros s. cbv zeta. break_if; [ | apply gated_skip ].
  assert (H : gated (assign (set_lock_state 0) ;;
                     assign (set_unlock_duration 5000) ;; send_status t'))
    by gated_auto.
  apply H.
Qed.

Lemma gated_process (t t' : Q) (cmd0 : string) :
  gated (process_normal_commands t t' cmd0).
Proof.
  intros s. unfold process_normal_commands.
  destruct (parse_duration cmd0) as [cmd d].
  assert (Hp : gated (assign (set_lock_state 2) ;; send_status t)) by gated_auto.
  assert (Hz : gated (assign (set_lock_state 0) ;; send_status t)) by gated_auto.
  assert (Hk : gated (cond rte_count_enabled (assign (set_rte_count 0)) skip ;;
                      send_status t)) by gated_auto.
  pose proof (gated_unlock_door t t' d) as Hu.
  pose proof (gated_send_status t) as Hs.
  repeat match goal with
         | |- context [if ?c then _ else _] => destruct c
         end;
    first [ apply Hp | apply Hz | apply Hk | apply Hu | apply Hs
          | apply gated_skip ].
Qed.

Lemma gated_refresh : gated refresh_config.
Proof. unfold refresh_config. gated_auto. Qed.

Lemma gated_handle_command (t t' : Q) (line : string) :
  gated (handle_command t t' line).
Proof.
  intros s.
  pose proof (gate_of_gated refresh_config s gated_refresh) as Hg.
  destruct (gated_refresh s) as (Hs & Hb & _).
  destruct (rte_override_active s) eqn:Hact.
  - destruct (handle_command_in_override t t' line s Hact) as (c & Hc & ->).
    rewrite Hc in Hs, Hb, Hg. cbn [fst] in Hs, Hb, Hg.
    destruct (upper (strip line) =? "STATUS")%string.
    + destruct (gated_send_status t c) as (H1 & H2 & H3).
      split; [ congruence | split; [ congruence | ] ].
      intros E. apply H3. congruence.
    + fold (dfacs_selected s).
      destruct (dfacs_selected s && ser s) eqn:E; cbn [fst snd];
        (split; [ exact Hs | split; [ exact Hb | ] ]); [ | reflexivity ].
      rewrite andb_comm, E. discriminate.
  - rewrite (handle_command_as_process t t' line s Hact).
    destruct (gated_process t t' (strip line) (fst (refresh_config s)))
      as (H1 & H2 & H3).
    split; [ congruence | split; [ congruence | ] ].
    intros E. apply H3. congruence.
Qed.

Lemma gated_intake (incoming : option string) (k : LoopClock) :
  gated (intake incoming k).
Proof.
  intros s. unfold intake.
  pose proof (gated_skip s) as Hk. unfold skip in Hk.
  destruct incoming as [raw | ]; [ | exact Hk ].
  pose proof (gated_handle_command (c_cmd k) (c_cmd' k) (strip raw) s) as Hc.
  cbv zeta.
  destruct (ser s); [ | exact Hk ].
  destruct (strip raw =? "")%string; [ exact Hk | exact Hc ].
Qed.

Lemma gated_trigger (t t' : Q) : gated (trigger_rte t t').
Proof.
  unfold trigger_rte. repeat apply gated_cond;
    first [ apply gated_activate | apply gated_skip ].
Qed.

Lemma gated_toggle_door (t : Q) : gated (toggle_door_state t).
Proof. unfold toggle_door_state. gated_auto. Qed.

Lemma gated_toggle_lock (t : Q) : gated (toggle_lock_state t).
Proof. unfold toggle_lock_state. gated_auto. Qed.

Lemma gated_manual_unlock (t t' : Q) : gated (manual_unlock t t').
Proof.
  intros s. unfold manual_unlock.
  destruct (py_int (unlock_duration_var s));
    [ apply gated_unlock_door | apply gated_skip ].
Qed.

Lemma quiet_iteration (incoming : option string) (k : LoopClock) (last : Q)
    (s : App) :
  ser s && dfacs_selected s = false ->
  snd (fst (emulation_iteration incoming k last s)) = [].
Proof.
  intros E. rewrite emulation_iteration_parts. cbv zeta.
  pose proof (gate_of_gated _ s (gated_intake incoming k)) as G1.
  destruct (gated_intake incoming k s) as (_ & _ & O1).
  set (s1 := fst (intake incoming k s)) in *.
  pose proof (gate_of_gated _ s1 (gated_override_timer (c_ovr k) (c_ovr' k))) as G2.
  destruct (gated_override_timer (c_ovr k) (c_ovr' k) s1) as (_ & _ & O2).
  set (s2 := fst (handle_rte_override_timer (c_ovr k) (c_ovr' k) s1)) in *.
  set (r3 := if negb (rte_override_active s2)
             then handle_unlock_timer (c_unl k) (c_unl' k) s2 else (s2, [])).
  assert (H3 : ser (fst r3) && dfacs_selected (fst r3)
               = ser s2 && dfacs_selected s2 /\
               (ser s2 && dfacs_selected s2 = false -> snd r3 = [])).
  { subst r3. destruct (negb (rte_override_active s2)).
    - split; [ apply gate_of_gated, gated_unlock_timer | ].
      apply (gated_unlock_timer (c_unl k) (c_unl' k) s2).
    - split; reflexivity. }
  destruct H3 as [G3 O3].
  assert (E1 : ser s1 && dfacs_selected s1 = false) by congruence.
  assert (E2 : ser s2 && dfacs_selected s2 = false) by congruence.
  assert (E3 : ser (fst r3) && dfacs_selected (fst r3) = false) by congruence.
  rewrite (O1 E), (O2 E1), (O3 E2).
  destruct (dfacs_selected (fst r3) && Qle_bool 1 (c_beat k - last));
    cbn [fst snd app]; [ | reflexivity ].
  rewrite send_status_output, E3. reflexivity.
Qed.

(** X12. Nothing is ever written unless the port is attached and DFACS is
    the selected billing partner: with ABC or PEAK selected, or without a
    port, every operation has empty output. *)
Theorem output_needs_port_and_dfacs (e : Event) (s : App) :
  ser s = false \/ dfacs_selected s = false ->
  snd (step e s) = [].
Proof.
  intros H.
  assert (E : ser s && dfacs_selected s = false).
  { destruct H as [-> | ->]; [ reflexivity | apply andb_false_r ]. }
  destruct e; cbn [step].
  - destruct opened; reflexivity.
  - reflexivity.
  - destruct (running s); [ | reflexivity ].
    now apply quiet_iteration.
  - now apply (gated_trigger t t' s).
  - now apply (gated_toggle_door t s).
  - now apply (gated_toggle_lock t s).
  - now apply (gated_manual_unlock t t' s).
  - reflexivity.
  - reflexivity.
  - reflexivity.
  - reflexivity.
  - reflexivity.
Qed.

Lemma output_needs_port_and_dfacs_witness :
  let s := fst (connect_serial true
                  (init (mkSettings (Some "PEAK") None None None))) in
  snd (step (EvIteration (Some "0") (at_instant 1) 0) s) = []
  /\ lock_state (fst (step (EvIteration (Some "0") (at_instant 1) 0) s)) = 1.
Proof.
  intros s. split; [ | reflexivity ].
  apply (output_needs_port_and_dfacs (EvIteration (Some "0") (at_instant 1) 0) s).
  right. reflexivity.
Defined.

(** ** The lines of the protocol *)

Lemma speaks_skip : speaks skip.
Proof. intros s l []. Qed.

Lemma speaks_assign (f : App -> App) : speaks (assign f).
Proof. intros s l []. Qed.

Lemma speaks_write (data : string) : wire_line data -> speaks (ser_write data).
Proof. intros H s l [<- | []]. exact H. Qed.

Lemma speaks_seq (a b : Act) : speaks a -> speaks b -> speaks (a ;; b).
Proof.
  intros Ha Hb s l. unfold seq.
  specialize (Ha s). destruct (a s) as [s1 o1].
  specialize (Hb s1). destruct (b s1) as [s2 o2].
  cbn [snd] in *. intros H. apply in_app_or in H.
  destruct H; [ now apply Ha | now apply Hb ].
Qed.

Lemma speaks_cond (c : App -> bool) (a b : Act) :
  speaks a -> speaks b -> speaks (cond c a b).
Proof.
  intros Ha Hb s l. unfold cond. destruct (c s); [ apply Ha | apply Hb ].
Qed.

Lemma wire_status (t : Q) (x : App) : wire_line (status_text t x ++ LF).
Proof. right. right. right. now exists t, x. Qed.

Lemma wire_rejected : wire_line ("REJECTED,RTE_OVERRIDE_ACTIVE" ++ LF).
Proof. left. reflexivity. Qed.

Lemma speaks_send_status (t : Q) : speaks (send_status t).
Proof.
  intros s l. rewrite send_status_output.
  destruct (ser s && dfacs_selected s); [ | intros [] ].
  intros [<- | []]. apply wire_status.
Qed.

Ltac speaks_auto :=
  repeat first
    [ apply speaks_send_status | apply speaks_skip | apply speaks_assign
    | apply (speaks_write _ wire_rejected)
    | apply speaks_seq | apply speaks_cond ].

Lemma speaks_unlock_door (t t' : Q) (d : Z) : speaks (unlock_door t t' d).
Proof. unfold unlock_door. speaks_auto. Qed.

Lemma speaks_activate (t t' : Q) : speaks (activate_rte_override t t').
Proof.
  intros s l. rewrite activate_rte_override_result. cbn [snd].
  intros H. apply in_app_or in H. destruct H as [H | H].
  - destruct (ser s && dfacs_selected s); [ | destruct H ].
    destruct H as [<- | []]. apply wire_status.
  - destruct (dfacs_selected s && ser s); [ | destruct H ].
    destruct H as [<- | []]. right. left. reflexivity.
Qed.

Lemma speaks_deactivate (t' : Q) : speaks (deactivate_rte_override t').
Proof.
  intros s l. rewrite deactivate_rte_override_result. cbn [snd].
  intros H. apply in_app_or in H. destruct H as [H | H].
  - destruct (ser s && dfacs_selected s); [ | destruct H ].
    destruct H as [<- | []]. apply wire_status.
  - destruct (dfacs_selected s && ser s); [ | destruct H ].
    destruct H as [<- | []]. right. right. left. reflexivity.
Qed.

Lemma speaks_override_timer (t t' : Q) : speaks (handle_rte_override_timer t t').
Proof.
  unfold handle_rte_override_timer. apply speaks_cond; [ | apply speaks_skip ].
  intros s l. cbv zeta.
  break_if; [ apply (speaks_deactivate t' s l) | apply (speaks_skip s l) ].
Qed.

Lemma speaks_unlock_timer (t t' : Q) : speaks (handle_unlock_timer t t').
Proof.
  unfold handle_unlock_timer. apply speaks_cond; [ | apply speaks_skip ].
  intros s l. cbv zeta. break_if; [ | apply (speaks_skip s l) ].
  assert (H : speaks (assign (set_lock_state 0) ;;
                      assign (set_unlock_duration 5000) ;; send_status t'))
    by speaks_auto.
  apply (H s l).
Qed.

Lemma speaks_process (t t' : Q) (cmd0 : string) :
  speaks (process_normal_commands t t' cmd0).
Proof.
  intros s. unfold process_normal_commands.
  destruct (parse_duration cmd0) as [cmd d].
  assert (Hp : speaks (assign (set_lock_state 2) ;; send_status t)) by speaks_auto.
  assert (Hz : speaks (assign (set_lock_state 0) ;; send_status t)) by speaks_auto.
  assert (Hk : speaks (cond rte_count_enabled (assign (set_rte_count 0)) skip ;;
                       send_status t)) by speaks_auto.
  pose proof (speaks_unlock_door t t' d) as Hu.
  pose proof (speaks_send_status t) as Hs.
  intros l.
  repeat match goal with
         | |- context [if ?c then _ else _] => destruct c
         end;
    first [ apply (Hp s l) | apply (Hz s l) | apply (Hk s l) | apply (Hu s l)
          | apply (Hs s l) | apply (speaks_skip s l) ].
Qed.

Lemma speaks_handle_command (t t' : Q) (line : string) :
  speaks (handle_command t t' line).
Proof.
  unfold handle_command, refresh_config.
  repeat (apply speaks_seq; [ apply speaks_assign | ]).
  apply speaks_cond; [ | apply speaks_process ].
  destruct (upper (strip line) =? "STATUS")%string; speaks_auto.
Qed.

Lemma speaks_iteration (incoming : option string) (k : LoopClock) (last : Q)
    (s : App) (l : string) :
  In l (snd (fst (emulation_iteration incoming k last s))) -> wire_line l.
Proof.
  rewrite emulation_iteration_parts. cbv zeta.
  set (s1 := fst (intake incoming k s)).
  set (s2 := fst (handle_rte_override_timer (c_ovr k) (c_ovr' k) s1)).
  set (r3 := if negb (rte_override_active s2)
             then handle_unlock_timer (c_unl k) (c_unl' k) s2 else (s2, [])).
  assert (H1 : In l (snd (intake incoming k s)) -> wire_line l).
  { unfold intake. destruct incoming as [raw | ]; [ | intros [] ].
    destruct (ser s); [ | intros [] ].
    cbv zeta. destruct (strip raw =? "")%string; [ intros [] | ].
    apply speaks_handle_command. }
  assert (H2 : In l (snd (handle_rte_override_timer (c_ovr k) (c_ovr' k) s1))
               -> wire_line l) by apply speaks_override_timer.
  assert (H3 : In l (snd r3) -> wire_line l).
  { subst r3. destruct (negb (rte_override_active s2)); [ | intros [] ].
    apply speaks_unlock_timer. }
  pose proof (speaks_send_status (c_beat' k) (fst r3) l) as H4.
  destruct (dfacs_selected (fst r3) && Qle_bool 1 (c_beat k - last));
    cbn [fst snd]; intros H;
    repeat (apply in_app_or in H; destruct H as [H | H]); auto.
Qed.

(** X13. Every line any operation writes is one of the four messages of
    the protocol: the rejection, the activation notice (which always
    announces 5 seconds), the deactivation notice, or a status record. *)
Theorem output_vocabulary (e : Event) (s : App) (l : string) :
  In l (snd (step e s)) -> wire_line l.
Proof.
  destruct e; cbn [step].
  - destruct opened; intros [].
  - intros [].
  - destruct (running s); [ apply speaks_iteration | intros [] ].
  - unfold trigger_rte.
    apply speaks_cond; [ | apply speaks_skip ].
    apply speaks_cond; [ apply speaks_activate | apply speaks_skip ].
  - unfold toggle_door_state. revert s l. speaks_auto.
  - unfold toggle_lock_state. revert s l. speaks_auto.
  - unfold manual_unlock.
    destruct (py_int (unlock_duration_var s));
      [ apply speaks_unlock_door | intros [] ].
  - intros [].
  - intros [].
  - intros [].
  - intros [].
  - intros [].
Qed.

Lemma output_vocabulary_witness :
  let s := fst (connect_serial true (init no_settings)) in
  let l := "RTE_OVERRIDE,ACTIVATED,5" ++ LF in
  In l (snd (step (EvTriggerRte 0 0) s)) /\ wire_line l.
Proof.
  intros s l.
  assert (H : In l (snd (step (EvTriggerRte 0 0) s))).
  { vm_compute. right. left. reflexivity. }
  split; [ exact H | ].
  exact (output_vocabulary (EvTriggerRte 0 0) s l H).
Defined.

(** ** Timers *)

Lemma Qle_bool_false (x y : Q) : Qle_bool x y = false <-> (y < x)%Q.
Proof.
  split.
  - intros H. apply Qnot_le_lt. intros Hle.
    apply Qle_bool_iff in Hle. congruence.
  - intros H. destruct (Qle_bool x y) eqn:E; [ | reflexivity ].
    apply Qle_bool_iff in E. exfalso. exact (Qlt_not_le _ _ H E).
Qed.

Lemma override_timer_cases (t t' : Q) (s : App) :
  rte_override_active s = true ->
  ((t * 1000 - rte_override_start_time s < inject_Z (rte_override_duration s))%Q ->
   handle_rte_override_timer t t' s = (s, []))
  /\ ((inject_Z (rte_override_duration s) <= t * 1000 - rte_override_start_time s)%Q ->
      handle_rte_override_timer t t' s = deactivate_rte_override t' s).
Proof.
  intros Hact. unfold handle_rte_override_timer, cond, skip. rewrite Hact.
  cbv zeta. split; intros H.
  - apply Qle_bool_false in H. now rewrite H.
  - apply Qle_bool_iff in H. now rewrite H.
Qed.

Lemma unlock_timer_cases (t t' : Q) (s : App) :
  lock_state s = 1 ->
  ((t * 1000 - unlock_start_time s < inject_Z (unlock_duration s))%Q ->
   handle_unlock_timer t t' s = (s, []))
  /\ ((inject_Z (unlock_duration s) <= t * 1000 - unlock_start_time s)%Q ->
      fst (handle_unlock_timer t t' s)
      = set_unlock_duration 5000 (set_lock_state 0 s)).
Proof.
  intros Hl. unfold handle_unlock_timer, cond, skip. rewrite Hl.
  cbv zeta. cbn [Z.eqb Pos.eqb]. split; intros H.
  - apply Qle_bool_false in H. now rewrite H.
  - apply Qle_bool_iff in H. rewrite H.
    rewrite !seq_assign. now rewrite send_status_state.
Qed.

Lemma unlock_timer_other_state (t t' : Q) (s : App) :
  lock_state s <> 1 -> handle_unlock_timer t t' s = (s, []).
Proof.
  intros Hl. unfold handle_unlock_timer, cond, skip.
  apply Z.eqb_neq in Hl. now rewrite Hl.
Qed.

Lemma override_timer_inactive (t t' : Q) (s : App) :
  rte_override_active s = false -> handle_rte_override_timer t t' s = (s, []).
Proof.
  intros Ha. unfold handle_rte_override_timer, cond, skip. now rewrite Ha.
Qed.

(** X14. The override window is 5000 ms, measured as the code measures
    it: after a trigger that activates the override at clock reading [t0],
    a timer check at reading [t1] compares [t1 * 1000 - t0 * 1000], the
    difference of the two readings taken in milliseconds, with 5000.
    Below 5000 the check changes nothing; from 5000 on it ends the
    override, locks, and resets the unlock window to 5000 ms; the counter
    is kept. *)
Theorem override_window_five_seconds (t0 t0' t1 t1' : Q) (s : App) :
  aux_is_rte s = true ->
  lock_state s = 0 ->
  let s1 := fst (trigger_rte t0 t0' s) in
  ((t1 * 1000 - t0 * 1000 < 5000)%Q ->
   handle_rte_override_timer t1 t1' s1 = (s1, []))
  /\ ((5000 <= t1 * 1000 - t0 * 1000)%Q ->
      let s2 := fst (handle_rte_override_timer t1 t1' s1) in
      rte_override_active s2 = false
      /\ lock_state s2 = 0
      /\ unlock_duration s2 = 5000
      /\ rte_count s2 = rte_count s1).
Proof.
  intros Haux Hl s1.
  assert (E1 : s1 = activated t0 s).
  { subst s1. rewrite (trigger_rte_activates t0 t0' s Haux Hl).
    now rewrite activate_rte_override_result. }
  assert (Hact : rte_override_active s1 = true) by (rewrite E1; now destruct s).
  assert (Hst : rte_override_start_time s1 = (t0 * 1000)%Q)
    by (rewrite E1; now destruct s).
  assert (Hdu : rte_override_duration s1 = 5000) by (rewrite E1; now destruct s).
  destruct (override_timer_cases t1 t1' s1 Hact) as [Hlt Hge].
  rewrite Hst, Hdu in Hlt, Hge.
  change (inject_Z 5000) with 5000%Q in Hlt, Hge.
  split.
  - exact Hlt.
  - intros H. cbv zeta. rewrite (Hge H).
    rewrite deactivate_rte_override_result. cbn [fst].
    destruct s1. repeat split.
Qed.

Lemma override_window_five_seconds_witness :
  let s1 := fst (trigger_rte 100 100 (init no_settings)) in
  handle_rte_override_timer (209 # 2) (105 # 1) s1 = (s1, [])
  /\ lock_state (fst (handle_rte_override_timer 105 105 s1)) = 0.
Proof.
  intros s1.
  destruct (override_window_five_seconds 100 100 (209 # 2) 105 (init no_settings))
    as [H1 _]; [ reflexivity | reflexivity | ].
  destruct (override_window_five_seconds 100 100 105 105 (init no_settings))
    as [_ H2]; [ reflexivity | reflexivity | ].
  split.
  - apply H1. reflexivity.
  - apply H2. discriminate.
Defined.

(** X15. A timed unlock lasts the clamped number of seconds, measured as
    the code measures it: after "0 <n>", with [n] a numeral of at most
    4300 digits, accepted at clock reading [t0], the unlock window is
    [d * 1000] ms with [d = max 1 (min 3600 n)], and a timer check at
    reading [t1] compares [t1 * 1000 - t0 * 1000] with it.  Below the
    window the check changes nothing; from the window on it locks and
    resets the unlock window to 5000 ms. *)
Theorem timed_unlock_window (t0 t0' t1 t1' : Q) (n : Z) (s : App) :
  (decimal_digits n <= int_max_str_digits)%nat ->
  known_dialect s ->
  rte_override_active s = false ->
  lock_state s = 0 ->
  let d := Z.max 1 (Z.min 3600 n) in
  let s1 := fst (handle_command t0 t0' ("0 " ++ str n) s) in
  lock_state s1 = 1
  /\ unlock_duration s1 = d * 1000
  /\ ((t1 * 1000 - t0 * 1000 < inject_Z (d * 1000))%Q ->
      handle_unlock_timer t1 t1' s1 = (s1, []))
  /\ ((inject_Z (d * 1000) <= t1 * 1000 - t0 * 1000)%Q ->
      let s2 := fst (handle_unlock_timer t1 t1' s1) in
      lock_state s2 = 0 /\ unlock_duration s2 = 5000).
Proof.
  intros Hn Hd Hact Hl d s1.
  destruct (timed_unlock_with_numeral t0 t0' n s Hn Hd Hact Hl)
    as (H1 & H2 & H3).
  fold s1 in H1, H2, H3. fold d in H2.
  destruct (unlock_timer_cases t1 t1' s1 H1) as [Hlt Hge].
  rewrite H2, H3 in Hlt, Hge.
  split; [ exact H1 | split; [ exact H2 | split ] ].
  - exact Hlt.
  - intros H. cbv zeta. rewrite (Hge H). destruct s1. split; reflexivity.
Qed.

Lemma timed_unlock_window_witness :
  let s1 := fst (handle_command 100 100 ("0 " ++ str 7200)
                   (fst (connect_serial true (init no_settings)))) in
  lock_state s1 = 1
  /\ handle_unlock_timer 3699 3699 s1 = (s1, [])
  /\ lock_state (fst (handle_unlock_timer 3700 3700 s1)) = 0.
Proof.
  intros s1.
  assert (Hn : (decimal_digits 7200 <= int_max_str_digits)%nat)
    by (apply Nat.leb_le; vm_compute; reflexivity).
  destruct (timed_unlock_window 100 100 3699 3699 7200
              (fst (connect_serial true (init no_settings))) Hn)
    as (H1 & _ & H2 & _);
    [ right; right; reflexivity | reflexivity | reflexivity | ].
  destruct (timed_unlock_window 100 100 3700 3700 7200
              (fst (connect_serial true (init no_settings))) Hn)
    as (_ & _ & _ & H3);
    [ right; right; reflexivity | reflexivity | reflexivity | ].
  split; [ exact H1 | split ].
  - apply H2. reflexivity.
  - apply H3. discriminate.
Defined.

Lemma iteration_without_event (k : LoopClock) (last : Q) (s : App) :
  (rte_override_active s = true ->
   (c_ovr k * 1000 - rte_override_start_time s
    < inject_Z (rte_override_duration s))%Q) ->
  (rte_override_active s = false -> lock_state s = 1 ->
   (c_unl k * 1000 - unlock_start_time s < inject_Z (unlock_duration s))%Q) ->
  emulation_iteration None k last s
  = if dfacs_selected s && Qle_bool 1 (c_beat k - last)
    then ((s, snd (send_status (c_beat' k) s)), c_beat k)
    else ((s, []), last).
Proof.
  intros Ho Hu. rewrite emulation_iteration_parts. cbv zeta.
  cbn [intake fst snd].
  assert (E2 : handle_rte_override_timer (c_ovr k) (c_ovr' k) s = (s, [])).
  { destruct (rte_override_active s) eqn:Ha.
    - now apply (override_timer_cases (c_ovr k) (c_ovr' k) s Ha), Ho.
    - now apply override_timer_inactive. }
  rewrite E2. cbn [fst snd].
  assert (E3 : (if negb (rte_override_active s)
                then handle_unlock_timer (c_unl k) (c_unl' k) s
                else (s, [])) = (s, [])).
  { destruct (rte_override_active s) eqn:Ha; cbn [negb]; [ reflexivity | ].
    destruct (Z.eq_dec (lock_state s) 1) as [Hl | Hl].
    - now apply (unlock_timer_cases (c_unl k) (c_unl' k) s Hl), Hu.
    - now apply unlock_timer_other_state. }
  rewrite E3. cbn [fst snd app]. reflexivity.
Qed.

(** X16. A loop iteration with no line waiting and no timer due changes
    nothing: the object is as before, and the only output is the
    heartbeat status, sent when DFACS is selected and at least one second
    has passed since the last one (the time of which is then updated). *)
Theorem idle_iteration (k : LoopClock) (last : Q) (s : App) :
  (rte_override_active s = true ->
   (c_ovr k * 1000 - rte_override_start_time s
    < inject_Z (rte_override_duration s))%Q) ->
  (rte_override_active s = false -> lock_state s = 1 ->
   (c_unl k * 1000 - unlock_start_time s < inject_Z (unlock_duration s))%Q) ->
  emulation_iteration None k last s
  = if dfacs_selected s && Qle_bool 1 (c_beat k - last)
    then ((s, snd (send_status (c_beat' k) s)), c_beat k)
    else ((s, []), last).
Proof. exact (iteration_without_event k last s). Qed.

Lemma idle_iteration_witness :
  let s := fst (trigger_rte 100 100 (fst (connect_serial true (init no_settings)))) in
  emulation_iteration None (at_instant 102) (203 # 2) s = ((s, []), (203 # 2)%Q).
Proof.
  intros s.
  rewrite (idle_iteration (at_instant 102) (203 # 2) s).
  - reflexivity.
  - intros _. reflexivity.
  - intros H. discriminate H.
Defined.

(** X17. No timer ends a permanent unlock or disturbs a locked relay:
    with no override active and the lock state other than 1, a loop
    iteration without a waiting line leaves the object as it is, whatever
    the clock shows. *)
Theorem timers_leave_steady_states (k : LoopClock) (last : Q) (s : App) :
  rte_override_active s = false ->
  lock_state s <> 1 ->
  fst (fst (emulation_iteration None k last s)) = s.
Proof.
  intros Ha Hl. rewrite (iteration_without_event k last s).
  - destruct (dfacs_selected s && Qle_bool 1 (c_beat k - last)); reflexivity.
  - intros H. congruence.
  - intros _ H. contradiction.
Qed.

Lemma timers_leave_steady_states_witness :
  let s := fst (handle_command 1 1 "a" (fst (connect_serial true (init no_settings)))) in
  lock_state s = 2
  /\ fst (fst (emulation_iteration None (at_instant 100000) 0 s)) = s.
Proof.
  intros s. split; [ reflexivity | ].
  apply (timers_leave_steady_states (at_instant 100000) 0 s);
    [ reflexivity | discriminate ].
Defined.

(** ** The buttons *)

Lemma unlock_door_inactive (t t' : Q) (d : Z) (s : App) :
  rte_override_active s = false ->
  fst (unlock_door t t' d s)
  = set_unlock_start_time (t * 1000)%Q
      (set_unlock_duration (d * 1000) (set_lock_state 1 s)).
Proof.
  intros Ha. unfold unlock_door, cond. rewrite Ha.
  rewrite !seq_assign. now rewrite send_status_state.
Qed.

(** X18. The manual unlock button, with no override active and an ASCII
    entry that is an integer literal of value [d] as [int] accepts them
    (white space, an optional sign, at most 4300 digits with single
    underscores allowed between digits, white space), opens an unlock
    window from any lock state, also from permanently unlocked: the lock
    state becomes 1 and the window is [d] clamped to 1..3600 seconds.
    Any other ASCII entry leaves the object as it is and writes
    nothing. *)
Theorem manual_unlock_from_any_state (t t' : Q) (s : App) :
  rte_override_active s = false ->
  is_ascii (unlock_duration_var s) = true ->
  (forall d, int_literal (unlock_duration_var s) d ->
     let s' := fst (manual_unlock t t' s) in
     lock_state s' = 1
     /\ unlock_duration s' = Z.max 1 (Z.min 3600 d) * 1000
     /\ unlock_start_time s' = (t * 1000)%Q)
  /\ ((forall d, ~ int_literal (unlock_duration_var s) d) ->
      manual_unlock t t' s = (s, [])).
Proof.
  intros Ha _. unfold manual_unlock. split.
  - intros d Hd. apply py_int_correct in Hd. rewrite Hd.
    cbv zeta. rewrite (unlock_door_inactive _ _ _ _ Ha).
    destruct s. repeat split.
  - intros Hd. apply py_int_none in Hd. rewrite Hd. reflexivity.
Qed.

Lemma manual_unlock_from_any_state_witness :
  let s := fst (toggle_lock_state 0 (init no_settings)) in
  let s' := fst (manual_unlock 1 1 s) in
  let u := fst (step (EvSetUnlockDuration (String "028" "7")) s) in
  (lock_state s = 2 /\ lock_state s' = 1 /\ unlock_duration s' = 5000)
  /\ manual_unlock 1 1 u = (u, []).
Proof.
  intros s s' u. split.
  - split; [ reflexivity | ].
    destruct (manual_unlock_from_any_state 1 1 s) as [H _];
      [ reflexivity | reflexivity | ].
    destruct (H 5) as (H1 & H2 & _);
      [ apply py_int_correct; vm_compute; reflexivity | ].
    split; [ exact H1 | exact H2 ].
  - destruct (manual_unlock_from_any_state 1 1 u) as [_ H];
      [ reflexivity | reflexivity | ].
    apply H. apply py_int_none. vm_compute. reflexivity.
Defined.

(** X19. During an override the manual unlock button changes nothing;
    the rejection line is written exactly when DFACS is selected and the
    port is attached. *)
Theorem manual_unlock_rejected_in_override (t t' : Q) (s : App) :
  rte_override_active s = true ->
  fst (manual_unlock t t' s) = s
  /\ (forall l, In l (snd (manual_unlock t t' s)) -> l = REJECTED)
  /\ (In REJECTED (snd (manual_unlock t t' s)) ->
      dfacs_selected s = true /\ ser s = true).
Proof.
  intros Ha. unfold manual_unlock.
  destruct (py_int (unlock_duration_var s)) as [d | ].
  - unfold unlock_door, cond, skip, ser_write. rewrite Ha.
    destruct (dfacs_selected s && ser s) eqn:E; cbn [fst snd].
    + apply andb_true_iff in E.
      split; [ reflexivity | split; [ | intros _; exact E ] ].
      intros l [<- | []]. reflexivity.
    + split; [ reflexivity | split; [ intros l [] | intros [] ] ].
  - cbn [skip fst snd]. split; [ reflexivity | split; [ intros l [] | intros [] ] ].
Qed.

Lemma manual_unlock_rejected_in_override_witness :
  let s := fst (trigger_rte 0 0 (fst (connect_serial true (init no_settings)))) in
  fst (manual_unlock 1 1 s) = s.
Proof.
  intros s.
  destruct (manual_unlock_rejected_in_override 1 1 s) as [H _];
    [ reflexivity | exact H ].
Defined.

(** X20. The door toggle button does nothing unless the auxiliary input
    is DPS or BOND; with such an input and a door state of "OPEN" or
    "CLOSED", pressing it twice restores the object exactly. *)
Theorem toggle_door_twice (t1 t2 : Q) (s : App) :
  (aux_is_door s = false -> toggle_door_state t1 s = (s, []))
  /\ (aux_is_door s = true ->
      door_state s = "OPEN" \/ door_state s = "CLOSED" ->
      door_state (fst (toggle_door_state t1 s)) <> door_state s
      /\ fst (toggle_door_state t2 (fst (toggle_door_state t1 s))) = s).
Proof.
  split.
  - intros Ha. unfold toggle_door_state, cond, skip. now rewrite Ha.
  - intros Ha Hd.
    assert (Hstep : forall u x, aux_is_door x = true ->
              fst (toggle_door_state u x)
              = set_door_state (if (door_state x =? "CLOSED")%string
                                then "OPEN" else "CLOSED") x).
    { intros u x Hx. unfold toggle_door_state, cond. rewrite Hx.
      unfold seq, assign.
      destruct (door_state x =? "CLOSED")%string;
        rewrite send_status_result; reflexivity. }
    rewrite (Hstep t1 s Ha).
    assert (Ha' : aux_is_door
                    (set_door_state (if (door_state s =? "CLOSED")%string
                                     then "OPEN" else "CLOSED") s) = true)
      by (destruct s; exact Ha).
    rewrite (Hstep t2 _ Ha').
    destruct s as [rn sr ls rc ds ust ud oa ost od lr bp at_ ano rce bpv atv anov rcev udv].
    cbn [door_state] in Hd.
    destruct Hd as [-> | ->]; split; try discriminate; reflexivity.
Qed.

Lemma toggle_door_twice_witness :
  let s := fst (step (EvSetAuxType "dps") (init no_settings)) in
  door_state (fst (toggle_door_state 1 s)) = "OPEN"
  /\ fst (toggle_door_state 2 (fst (toggle_door_state 1 s))) = s.
Proof.
  intros s. split; [ reflexivity | ].
  destruct (toggle_door_twice 1 2 s) as [_ H].
  destruct H as [_ H]; [ reflexivity | right; reflexivity | exact H ].
Defined.

(** X21. Right after construction the counting flag of the settings file
    has not reached the controller yet: whatever the file says, the first
    RTE trigger before any command is handled counts the activation. *)
Theorem first_trigger_counts_whatever_the_settings (t t' : Q) (st : Settings) :
  aux_is_rte (init st) = true ->
  rte_count (fst (trigger_rte t t' (init st))) = 1
  /\ rte_count_enabled_var (init st) = from_setting (st_rte_count_enabled st) true.
Proof.
  intros Ha. split; [ | reflexivity ].
  rewrite (trigger_rte_activates t t' (init st) Ha eq_refl).
  rewrite activate_rte_override_result. reflexivity.
Qed.

Lemma first_trigger_counts_whatever_the_settings_witness :
  let st := mkSettings None None None (Some false) in
  rte_count_enabled_var (init st) = false
  /\ rte_count (fst (trigger_rte 0 0 (init st))) = 1.
Proof.
  intros st. split; [ reflexivity | ].
  destruct (first_trigger_counts_whatever_the_settings 0 0 st) as [H _];
    [ reflexivity | exact H ].
Defined.

(** ** The permanent unlock command *)

Lemma process_permanent_unlock (t t' : Q) (cmd0 : string) (s : App) :
  billing_partner s = "ABC" \/ billing_partner s = "PEAK"
  \/ billing_partner s = "DFACS" ->
  lock_state s = 0 ->
  lower (fst (parse_duration cmd0)) = "a" ->
  fst (process_normal_commands t t' cmd0 s) = set_lock_state 2 s.
Proof.
  intros Hbp Hl Ha. unfold process_normal_commands.
  destruct (parse_duration cmd0) as [cmd d]. cbn [fst] in Ha.
  assert (H0 : (cmd =? "0")%string = false).
  { apply String.eqb_neq. intros ->. discriminate Ha. }
  rewrite Ha, H0, Hl.
  destruct Hbp as [-> | [-> | ->]];
    repeat match goal with
           | |- context [String.eqb ?a ?b] =>
               let v := eval vm_compute in (String.eqb a b) in
               change (String.eqb a b) with v
           end;
    cbn [orb andb Z.eqb];
    rewrite seq_assign; now rewrite send_status_state.
Qed.

(** X22. In each of the three dialects, with no override active and the
    lock LOCKED, a line whose command word is "a" in either letter case
    sets the lock state to 2 (permanently unlocked) and changes nothing
    else of the owned state. *)
Theorem permanent_unlock_command (t t' : Q) (line : string) (s : App) :
  known_dialect s ->
  rte_override_active s = false ->
  lock_state s = 0 ->
  lower (command_word line) = "a" ->
  owned (fst (handle_command t t' line s)) = owned (set_lock_state 2 s).
Proof.
  intros Hd Hact Hl Ha.
  rewrite (handle_command_as_process t t' line s Hact).
  destruct (refresh_config_spec s) as (c & Hc & Ho & _ & _ & Hbp & _).
  rewrite Hc. cbn [fst].
  rewrite (process_permanent_unlock t t' (strip line) c).
  - destruct c, s. unfold owned in *. fields.
    injection Ho as -> -> -> -> -> -> -> ->. reflexivity.
  - rewrite Hbp. exact Hd.
  - rewrite <- Hl. exact (f_equal o_lock_state Ho).
  - exact Ha.
Qed.

Lemma permanent_unlock_command_witness :
  let s := fst (connect_serial true
                  (init (mkSettings (Some "ABC") None None None))) in
  lock_state (fst (handle_command 1 1 "A" s)) = 2.
Proof.
  intros s.
  exact (f_equal o_lock_state
           (permanent_unlock_command 1 1 "A" s
              (or_introl eq_refl) eq_refl eq_refl eq_refl)).
Defined.

(** ** The timer label *)

(** X23. The unlock-timer label of the window shows the number of the
    status record's time field followed by "s", with " (RTE)" appended
    while the override is active and has time left. *)
Theorem timer_label_agrees_with_status (t : Q) (s : App) :
  unlock_timer_text t s
  = if rte_override_active s
       && Qlt_bool (t * 1000 - rte_override_start_time s)
            (inject_Z (rte_override_duration s))
    then str (time_remaining t s) ++ "s (RTE)"
    else str (time_remaining t s) ++ "s".
Proof.
  unfold unlock_timer_text, time_remaining.
  destruct (rte_override_active s); cbn [andb].
  - cbv zeta. destruct (Qlt_bool _ _); reflexivity.
  - destruct (lock_state s =? 1); [ | reflexivity ].
    cbv zeta. destruct (Qlt_bool _ _); reflexivity.
Qed.

(** ** The first emulator *)

Lemma legacy_step_invariant (e : Legacy.Event) (r : Legacy.Relay) :
  (Legacy.state r = 0 \/ Legacy.state r = 1 \/ Legacy.state r = 2)
  /\ (Legacy.state r = 1 -> (0 < Legacy.timers r)%nat) ->
  (Legacy.state (Legacy.step e r) = 0 \/ Legacy.state (Legacy.step e r) = 1
   \/ Legacy.state (Legacy.step e r) = 2)
  /\ (Legacy.state (Legacy.step e r) = 1 -> (0 < Legacy.timers (Legacy.step e r))%nat).
Proof.
  intros [Hv Ht]. destruct e as [raw | ]; cbn [Legacy.step].
  - unfold Legacy.receive. cbv zeta.
    repeat match goal with
           | |- context [if ?c then _ else _] => destruct c
           end; cbn [Legacy.state Legacy.timers];
      first [ split; [ auto | intros H; first [ discriminate H | lia ] ]
            | split; assumption ].
  - destruct (Legacy.timers r) as [ | n] eqn:En;
      [ rewrite En; split; assumption | ].
    unfold Legacy.lock_relay. cbn [Legacy.state Legacy.timers].
    destruct (Z.eqb_spec (Legacy.state r) 1) as [E | E];
      cbn [Legacy.state Legacy.timers].
    + split; [ auto | intros H; discriminate H ].
    + split; [ exact Hv | intros H; contradiction ].
Qed.

(** X24. In the first emulator ([main.py]) the relay state is always 0, 1
    or 2, and whenever it is 1 (unlocking) at least one started timer has
    not fired yet, so the unlocking state always has a timer that ends
    it. *)
Theorem legacy_unlocking_has_pending_timer (es : list Legacy.Event) :
  let r := Legacy.run es Legacy.init in
  (Legacy.state r = 0 \/ Legacy.state r = 1 \/ Legacy.state r = 2)
  /\ (Legacy.state r = 1 -> (0 < Legacy.timers r)%nat).
Proof.
  cbv zeta.
  assert (H : forall r0,
             (Legacy.state r0 = 0 \/ Legacy.state r0 = 1 \/ Legacy.state r0 = 2)
             /\ (Legacy.state r0 = 1 -> (0 < Legacy.timers r0)%nat) ->
             (Legacy.state (Legacy.run es r0) = 0
              \/ Legacy.state (Legacy.run es r0) = 1
              \/ Legacy.state (Legacy.run es r0) = 2)
             /\ (Legacy.state (Legacy.run es r0) = 1 ->
                 (0 < Legacy.timers (Legacy.run es r0))%nat)).
  { induction es as [ | e es IH]; intros r0 Hr; cbn [Legacy.run]; [ exact Hr | ].
    apply IH. now apply legacy_step_invariant. }
  apply H. cbn. split; [ auto | intros H0; discriminate H0 ].
Qed.

(** ** The configuration copy *)

(** The configuration attributes agree with the panel. *)
Lemma config_kept (b a : string) (n r : bool) (t t' : Q) (cmd0 : string) :
  keeps (fun x => billing_partner x = b /\ aux_type x = a
                  /\ aux_normally_open x = n /\ rte_count_enabled x = r)
    (process_normal_commands t t' cmd0).
Proof.
  intros s H. unfold process_normal_commands.
  destruct (parse_duration cmd0) as [cmd d].
  set (P := fun x => billing_partner x = b /\ aux_type x = a
                     /\ aux_normally_open x = n /\ rte_count_enabled x = r) in *.
  assert (Hp : keeps P (assign (set_lock_state 2) ;; send_status t))
    by (subst P; keeps_auto).
  assert (Hz : keeps P (assign (set_lock_state 0) ;; send_status t))
    by (subst P; keeps_auto).
  assert (Hk : keeps P (cond rte_count_enabled (assign (set_rte_count 0)) skip ;;
                        send_status t))
    by (subst P; keeps_auto).
  assert (Hu : keeps P (unlock_door t t' d))
    by (subst P; unfold unlock_door; keeps_auto).
  pose proof (keeps_send_status P t) as Hs.
  repeat match goal with
         | |- context [if ?c then _ else _] => destruct c
         end;
    first [ now apply Hp | now apply Hz | now apply Hk | now apply Hu
          | now apply Hs | exact H ].
Qed.

(** X25. Every handled command leaves the configuration attributes equal
    to what the panel shows at that moment: the billing partner and the
    auxiliary input type in upper case, the polarity and the counting
    flag as ticked. *)
Theorem command_refreshes_configuration (t t' : Q) (line : string) (s : App) :
  let s' := fst (handle_command t t' line s) in
  billing_partner s' = upper (billing_partner_var s)
  /\ aux_type s' = upper (aux_type_var s)
  /\ aux_normally_open s' = aux_normally_open_var s
  /\ rte_count_enabled s' = rte_count_enabled_var s.
Proof.
  cbv zeta.
  assert (Hc : let c := fst (refresh_config s) in
               billing_partner c = upper (billing_partner_var s)
               /\ aux_type c = upper (aux_type_var s)
               /\ aux_normally_open c = aux_normally_open_var s
               /\ rte_count_enabled c = rte_count_enabled_var s
               /\ billing_partner_var c = billing_partner_var s).
  { destruct s. cbn. repeat split. }
  cbv zeta in Hc. destruct Hc as (H1 & H2 & H3 & H4 & H5).
  destruct (rte_override_active s) eqn:Hact.
  - destruct (handle_command_in_override t t' line s Hact) as (c & Hc & ->).
    rewrite Hc in H1, H2, H3, H4. cbn [fst] in H1, H2, H3, H4.
    destruct (upper (strip line) =? "STATUS")%string.
    + rewrite send_status_state. auto.
    + destruct ((dialect s =? "DFACS")%string && ser s); cbn [fst]; auto.
  - rewrite (handle_command_as_process t t' line s Hact).
    destruct (config_kept (upper (billing_partner_var s)) (upper (aux_type_var s))
                (aux_normally_open_var s) (rte_count_enabled_var s)
                t t' (strip line) (fst (refresh_config s)))
      as (K1 & K2 & K3 & K4).
    + repeat split; assumption.
    + auto.
Qed.

(** ** A status query with an argument *)

Lemma strip_status_numeral (n : Z) : strip ("status " ++ str n) = "status " ++ str n.
Proof.
  unfold strip.
  change ("status " ++ str n)
    with (String "s" (String "t" (String "a" (String "t" (String "u"
           (String "s" (String " " (str n)))))))).
  cbn [rstrip]. rewrite (rstrip_no_space _ (no_space_str n)).
  pose proof (str_nonempty n) as Hne.
  destruct (str n); [ contradiction | reflexivity ].
Qed.

(** X26. The two tests for a status query differ: in normal operation
    DFACS answers any line whose command word is "status", so
    "status <n>" gets a status record, but during an override only the
    bare word counts, so the same line is rejected. *)
Theorem status_with_argument (t t' : Q) (n : Z) (s : App) :
  dialect s = "DFACS" ->
  ser s = true ->
  (rte_override_active s = false ->
   snd (handle_command t t' ("status " ++ str n) s) = [status_text t s ++ LF])
  /\ (rte_override_active s = true ->
      snd (handle_command t t' ("status " ++ str n) s) = [REJECTED]).
Proof.
  intros Hd Hser.
  destruct (refresh_config_spec s)
    as (c & Hc & Ho & Hsc & _ & Hbp & _ & Hbv & Hav & _).
  split; intros Hact.
  - rewrite (handle_command_as_process _ _ _ _ Hact).
    rewrite Hc. cbn [fst]. rewrite strip_status_numeral.
    unfold process_normal_commands.
    change ("status " ++ str n) with ("status" ++ " " ++ str n).
    rewrite (parse_duration_token "status" (str n) eq_refl).
    rewrite Hbp, Hd.
    repeat match goal with
           | |- context [String.eqb ?a ?b] =>
               let v := eval vm_compute in (String.eqb a b) in
               change (String.eqb a b) with v
           end.
    cbn [orb andb].
    rewrite send_status_output, Hsc, Hser.
    unfold dfacs_selected, dialect. rewrite Hbv.
    fold (dialect s). rewrite Hd. cbn [andb String.eqb].
    change (("DFACS" =? "DFACS")%string) with true. cbv iota.
    now rewrite (status_text_ext t s c Ho Hav).
  - destruct (handle_command_in_override t t' ("status " ++ str n) s Hact)
      as (c' & Hc' & ->).
    rewrite strip_status_numeral.
    assert (Hu : (upper ("status " ++ str n) =? "STATUS")%string = false).
    { apply String.eqb_neq. intros H.
      change (upper ("status " ++ str n))
        with (String "S" (String "T" (String "A" (String "T" (String "U"
               (String "S" (String " " (upper (str n)))))))))
        in H.
      discriminate H. }
    rewrite Hu, Hd, Hser. reflexivity.
Qed.

Lemma status_with_argument_witness :
  let s := fst (trigger_rte 0 0 (fst (connect_serial true (init no_settings)))) in
  snd (handle_command 1 1 ("status " ++ str 1) s) = [REJECTED].
Proof.
  intros s.
  destruct (status_with_argument 1 1 1 s) as [_ H];
    [ reflexivity | reflexivity | ].
  apply H. reflexivity.
Defined.
